(** * Travel Destination: the proximity tracker of [src/components/Map.tsx]

    The component keeps a handful of React state cells (user position,
    destination, distance, threshold, last notification time, ...), five
    effects and a few event handlers.  The development below embeds that
    logic as explicit state passing over a [World]: the component state, the
    dependency snapshot React keeps from the previous render, the cleanup
    closures of the effects, and the part of the browser the component
    talks to (interval timers, the geolocation watch, the notifications
    that were shown).

    Numbers.  Timestamps are the integers [Date.now()] returns and are
    modelled as [Z].  Distances are finite doubles, which are rationals,
    and are modelled as [Q]; the threshold is one of the integers offered
    by the selector.  [LatLng.distanceTo] belongs to Leaflet, not to this
    repository: the component logic takes it as a parameter. *)

From Stdlib Require Import ZArith QArith Bool List String Lia.
From Stdlib Require Import Reals Lra.
Import ListNotations.
Local Open Scope Z_scope.

(** ** Data *)

(** A [[number, number]] tuple.  Arrays are heap objects and React compares
    effect dependencies with [Object.is], that is by reference, so a tuple
    carries the address it was allocated at. *)
Record Tuple : Type := mkTuple { addr : nat; lat : Q; lng : Q }.

(** Leaflet's [LatLng] object as built by [L.latLng(lat, lng)]. *)
Record LatLng : Type := mkLatLng { ll_lat : Q; ll_lng : Q }.

Definition L_latLng (a b : Q) : LatLng := mkLatLng a b.

(** The [useState] cells of [Map], with the names of the source. *)
Record State : Type := mkState {
  userPosition : option Tuple;
  destinationPosition : option Tuple;
  distanceMeters : option Q;
  geoError : option string;
  selectedDistance : Z;
  notificationsEnabled : bool;
  notificationInterval : option nat;
  lastNotificationTime : Z;
  isNearDestination : bool;
  countdownSeconds : Z
}.

Definition initialState : State :=
  {| userPosition := None;
     destinationPosition := None;
     distanceMeters := None;
     geoError := None;
     selectedDistance := 5;
     notificationsEnabled := true;
     notificationInterval := None;
     lastNotificationTime := 0;
     isNearDestination := false;
     countdownSeconds := 0 |}.

Definition distanceOptions : list Z := [2; 3; 4; 5; 10; 20].

(** The state setters returned by [useState]. *)
Definition setUserPosition (v : option Tuple) (s : State) : State :=
  mkState v (destinationPosition s) (distanceMeters s) (geoError s)
    (selectedDistance s) (notificationsEnabled s) (notificationInterval s)
    (lastNotificationTime s) (isNearDestination s) (countdownSeconds s).

Definition setDestinationPosition (v : option Tuple) (s : State) : State :=
  mkState (userPosition s) v (distanceMeters s) (geoError s)
    (selectedDistance s) (notificationsEnabled s) (notificationInterval s)
    (lastNotificationTime s) (isNearDestination s) (countdownSeconds s).

Definition setDistanceMeters (v : option Q) (s : State) : State :=
  mkState (userPosition s) (destinationPosition s) v (geoError s)
    (selectedDistance s) (notificationsEnabled s) (notificationInterval s)
    (lastNotificationTime s) (isNearDestination s) (countdownSeconds s).

Definition setGeoError (v : option string) (s : State) : State :=
  mkState (userPosition s) (destinationPosition s) (distanceMeters s) v
    (selectedDistance s) (notificationsEnabled s) (notificationInterval s)
    (lastNotificationTime s) (isNearDestination s) (countdownSeconds s).

Definition setSelectedDistance (v : Z) (s : State) : State :=
  mkState (userPosition s) (destinationPosition s) (distanceMeters s)
    (geoError s) v (notificationsEnabled s) (notificationInterval s)
    (lastNotificationTime s) (isNearDestination s) (countdownSeconds s).

Definition setNotificationsEnabled (v : bool) (s : State) : State :=
  mkState (userPosition s) (destinationPosition s) (distanceMeters s)
    (geoError s) (selectedDistance s) v (notificationInterval s)
    (lastNotificationTime s) (isNearDestination s) (countdownSeconds s).

Definition setNotificationInterval (v : option nat) (s : State) : State :=
  mkState (userPosition s) (destinationPosition s) (distanceMeters s)
    (geoError s) (selectedDistance s) (notificationsEnabled s) v
    (lastNotificationTime s) (isNearDestination s) (countdownSeconds s).

Definition setLastNotificationTime (v : Z) (s : State) : State :=
  mkState (userPosition s) (destinationPosition s) (distanceMeters s)
    (geoError s) (selectedDistance s) (notificationsEnabled s)
    (notificationInterval s) v (isNearDestination s) (countdownSeconds s).

Definition setIsNearDestination (v : bool) (s : State) : State :=
  mkState (userPosition s) (destinationPosition s) (distanceMeters s)
    (geoError s) (selectedDistance s) (notificationsEnabled s)
    (notificationInterval s) (lastNotificationTime s) v (countdownSeconds s).

Definition setCountdownSeconds (v : Z) (s : State) : State :=
  mkState (userPosition s) (destinationPosition s) (distanceMeters s)
    (geoError s) (selectedDistance s) (notificationsEnabled s)
    (notificationInterval s) (lastNotificationTime s) (isNearDestination s) v.

(** ** The browser *)

Inductive Permission : Type := PermDefault | PermGranted | PermDenied.

Definition isGranted (p : Permission) : bool :=
  match p with PermGranted => true | _ => false end.

Definition isDefault (p : Permission) : bool :=
  match p with PermDefault => true | _ => false end.

(** The two closures the component hands to [setInterval], each with the
    values of the render it was created in. *)
Inductive Callback : Type :=
| NotifyTick (user destination : option Tuple) (km : Z)
| CountdownTick (last : Z).

Record Interval : Type := mkInterval {
  handle : nat;
  period : Z;
  due : Z;
  callback : Callback
}.

(** A [Notification] object: when it was shown and the threshold quoted in
    its body. *)
Record Notification : Type := mkNotification { shownAt : Z; withinKm : Z }.

Record Browser : Type := mkBrowser {
  hasGeolocation : bool;
  hasNotification : bool;
  permission : Permission;
  prompting : bool;
  nextAddr : nat;
  nextHandle : nat;
  intervals : list Interval;
  watches : list nat;
  shown : list Notification
}.

Definition withPermission (p : Permission) (pr : bool) (b : Browser) : Browser :=
  mkBrowser (hasGeolocation b) (hasNotification b) p pr (nextAddr b)
    (nextHandle b) (intervals b) (watches b) (shown b).

Definition withIntervals (h : nat) (l : list Interval) (b : Browser) : Browser :=
  mkBrowser (hasGeolocation b) (hasNotification b) (permission b) (prompting b)
    (nextAddr b) h l (watches b) (shown b).

Definition withWatches (h : nat) (l : list nat) (b : Browser) : Browser :=
  mkBrowser (hasGeolocation b) (hasNotification b) (permission b) (prompting b)
    (nextAddr b) h (intervals b) l (shown b).

Definition withShown (l : list Notification) (b : Browser) : Browser :=
  mkBrowser (hasGeolocation b) (hasNotification b) (permission b) (prompting b)
    (nextAddr b) (nextHandle b) (intervals b) (watches b) l.

(** [[lat, lng]]: a fresh array. *)
Definition newTuple (la lo : Q) (b : Browser) : Tuple * Browser :=
  (mkTuple (nextAddr b) la lo,
   mkBrowser (hasGeolocation b) (hasNotification b) (permission b) (prompting b)
     (S (nextAddr b)) (nextHandle b) (intervals b) (watches b) (shown b)).

Definition setInterval (cb : Callback) (ms now : Z) (b : Browser) : nat * Browser :=
  (nextHandle b,
   withIntervals (S (nextHandle b))
     (intervals b ++ [mkInterval (nextHandle b) ms (now + ms) cb]) b).

Definition clearInterval (h : nat) (b : Browser) : Browser :=
  withIntervals (nextHandle b)
    (filter (fun i => negb (Nat.eqb (handle i) h)) (intervals b)) b.

Definition watchPosition (b : Browser) : nat * Browser :=
  (nextHandle b, withWatches (S (nextHandle b)) (watches b ++ [nextHandle b]) b).

Definition clearWatch (h : nat) (b : Browser) : Browser :=
  withWatches (nextHandle b)
    (filter (fun i => negb (Nat.eqb i h)) (watches b)) b.

(** A browser before the component is mounted: nothing scheduled yet. *)
Definition freshBrowser (geo notif : bool) (p : Permission) : Browser :=
  mkBrowser geo notif p false 0%nat 1%nat [] [] [].

(** ** The mounted component *)

Record World : Type := mkWorld {
  mounted : bool;
  st : State;                      (* the state cells *)
  rendered : State;                (* the values of the previous render,
                                      against which dependencies are compared *)
  watchCleanup : option nat;       (* [() => clearWatch(watchId)] *)
  intervalCleanup : option nat;    (* [() => clearInterval(interval)], 30 s effect *)
  countdownCleanup : option nat;   (* [() => clearInterval(interval)], countdown *)
  env : Browser
}.

Definition onState (f : State -> State) (w : World) : World :=
  mkWorld (mounted w) (f (st w)) (rendered w) (watchCleanup w)
    (intervalCleanup w) (countdownCleanup w) (env w).

Definition onEnv (f : Browser -> Browser) (w : World) : World :=
  mkWorld (mounted w) (st w) (rendered w) (watchCleanup w)
    (intervalCleanup w) (countdownCleanup w) (f (env w)).

Definition withEnv (b : Browser) (w : World) : World := onEnv (fun _ => b) w.

Definition withRendered (r : State) (w : World) : World :=
  mkWorld (mounted w) (st w) r (watchCleanup w)
    (intervalCleanup w) (countdownCleanup w) (env w).

Definition withWatchCleanup (c : option nat) (w : World) : World :=
  mkWorld (mounted w) (st w) (rendered w) c
    (intervalCleanup w) (countdownCleanup w) (env w).

Definition withIntervalCleanup (c : option nat) (w : World) : World :=
  mkWorld (mounted w) (st w) (rendered w) (watchCleanup w)
    c (countdownCleanup w) (env w).

Definition withCountdownCleanup (c : option nat) (w : World) : World :=
  mkWorld (mounted w) (st w) (rendered w) (watchCleanup w)
    (intervalCleanup w) c (env w).

Definition withMounted (m : bool) (w : World) : World :=
  mkWorld m (st w) (rendered w) (watchCleanup w)
    (intervalCleanup w) (countdownCleanup w) (env w).

Definition isSome {A : Type} (o : option A) : bool :=
  match o with Some _ => true | None => false end.

(** [Object.is] on two array-or-null values. *)
Definition sameRef (a b : option Tuple) : bool :=
  match a, b with
  | None, None => true
  | Some x, Some y => Nat.eqb (addr x) (addr y)
  | _, _ => false
  end.

(** [Math.ceil(a / b)] on integers. *)
Definition ceilDiv (a b : Z) : Z := - ((- a) / b).

(** ** Effects, handlers and the scheduler *)

Section Tracker.

(** Leaflet's [LatLng.prototype.distanceTo], in metres. *)
Variable distanceTo : LatLng -> LatLng -> Q.

(** [sendNotification]: shows a notification when the API exists and the
    permission is granted, and does nothing otherwise.  [km] is the
    [selectedDistance] the callback was memoised with. *)
Definition sendNotification (now km : Z) (b : Browser) : Browser :=
  if hasNotification b && isGranted (permission b)
  then withShown (mkNotification now km :: shown b) b
  else b.

(** Effect 1, on mount: asks for the permission while it is undecided. *)
Definition permissionEffect (w : World) : World :=
  if hasNotification (env w) && isDefault (permission (env w))
  then onEnv (withPermission PermDefault true) w
  else w.

(** Effect 2, on mount: subscribes to the position. *)
Definition geolocationEffect (w : World) : World :=
  if negb (hasGeolocation (env w))
  then onState (setGeoError (Some "Geolocation is not supported by this browser."%string)) w
  else
    let (watchId, b) := watchPosition (env w) in
    withWatchCleanup (Some watchId) (withEnv b w).

Definition geolocationCleanup (w : World) : World :=
  match watchCleanup w with
  | Some watchId => withWatchCleanup None (onEnv (clearWatch watchId) w)
  | None => w
  end.

(** Effect 3: distance, near flag and the notification of the position
    path.  [r] is the render whose values the closure reads; the setters
    write into [w]. *)
Definition distanceEffect (now : Z) (r : State) (w : World) : World :=
  match userPosition r, destinationPosition r with
  | Some up, Some dp =>
      let user := L_latLng (lat up) (lng up) in
      let destination := L_latLng (lat dp) (lng dp) in
      let distance := distanceTo user destination in
      let w := onState (setDistanceMeters (Some distance)) w in
      let isNear := Qle_bool distance (inject_Z (selectedDistance r * 1000)) in
      let w := onState (setIsNearDestination isNear) w in
      if notificationsEnabled r && isNear then
        let timeSinceLastNotification := now - lastNotificationTime r in
        let notificationInterval := if isNear then 30000 else 60000 in
        if timeSinceLastNotification >=? notificationInterval then
          onState (setLastNotificationTime now)
            (onEnv (sendNotification now (selectedDistance r)) w)
        else w
      else w
  | _, _ => w
  end.

(** Effect 4: the 30 second interval. *)
Definition intervalEffect (now : Z) (r : State) (w : World) : World :=
  if negb (notificationsEnabled r) || negb (isSome (destinationPosition r)) then
    withIntervalCleanup None
      match notificationInterval r with
      | Some h => onState (setNotificationInterval None) (onEnv (clearInterval h) w)
      | None => w
      end
  else
    let (interval, b) :=
      setInterval
        (NotifyTick (userPosition r) (destinationPosition r) (selectedDistance r))
        30000 now (env w) in
    withIntervalCleanup (Some interval)
      (onState (setNotificationInterval (Some interval)) (withEnv b w)).

Definition intervalCleanupRun (w : World) : World :=
  match intervalCleanup w with
  | Some interval => onEnv (clearInterval interval) w
  | None => w
  end.

(** Effect 5: the one second countdown shown while the last notification
    time lies in the future. *)
Definition countdownEffect (now : Z) (r : State) (w : World) : World :=
  if lastNotificationTime r >? now then
    let (interval, b) :=
      setInterval (CountdownTick (lastNotificationTime r)) 1000 now (env w) in
    withCountdownCleanup (Some interval) (withEnv b w)
  else
    withCountdownCleanup None (onState (setCountdownSeconds 0) w).

Definition countdownCleanupRun (w : World) : World :=
  match countdownCleanup w with
  | Some interval => onEnv (clearInterval interval) w
  | None => w
  end.

(** The bodies of the two interval callbacks. *)
Definition runCallback (now : Z) (cb : Callback) (w : World) : World :=
  match cb with
  | NotifyTick (Some up) (Some dp) km =>
      let user := L_latLng (lat up) (lng up) in
      let destination := L_latLng (lat dp) (lng dp) in
      let distance := distanceTo user destination in
      if Qle_bool distance (inject_Z (km * 1000)) then
        onState (setLastNotificationTime now) (onEnv (sendNotification now km) w)
      else w
  | NotifyTick _ _ _ => w
  | CountdownTick last =>
      let remaining := ceilDiv (last - now) 1000 in
      if remaining >? 0 then onState (setCountdownSeconds remaining) w
      else onState (setCountdownSeconds 0) w
  end.

(** Dependency arrays of effects 3, 4 and 5, compared as React does. *)
Definition distanceDepsChanged (d r : State) : bool :=
  negb (sameRef (userPosition d) (userPosition r))
  || negb (sameRef (destinationPosition d) (destinationPosition r))
  || negb (selectedDistance d =? selectedDistance r)
  || negb (Bool.eqb (notificationsEnabled d) (notificationsEnabled r))
  || negb (lastNotificationTime d =? lastNotificationTime r).

Definition intervalDepsChanged (d r : State) : bool :=
  negb (Bool.eqb (notificationsEnabled d) (notificationsEnabled r))
  || negb (sameRef (destinationPosition d) (destinationPosition r))
  || negb (sameRef (userPosition d) (userPosition r))
  || negb (selectedDistance d =? selectedDistance r).

Definition countdownDepsChanged (d r : State) : bool :=
  negb (lastNotificationTime d =? lastNotificationTime r).

(** One render and its effects: the cleanups of the effects whose
    dependencies changed, then their bodies in source order.  The closures
    read the rendered values [r]; what they set is seen by the next
    render. *)
Definition pass (now : Z) (w : World) : World :=
  let r := st w in
  let d := rendered w in
  let w := if intervalDepsChanged d r then intervalCleanupRun w else w in
  let w := if countdownDepsChanged d r then countdownCleanupRun w else w in
  let w := if distanceDepsChanged d r then distanceEffect now r w else w in
  let w := if intervalDepsChanged d r then intervalEffect now r w else w in
  let w := if countdownDepsChanged d r then countdownEffect now r w else w in
  withRendered r w.

(** Re-rendering until the effects set nothing new.  Three renders are
    enough ([commit_settled] below); the whole cascade reads the clock as
    [now]. *)
Definition commit (now : Z) (w : World) : World :=
  pass now (pass now (pass now w)).

(** The first render: every effect runs. *)
Definition mount (now : Z) (b : Browser) : World :=
  let w := mkWorld true initialState initialState None None None b in
  let w := permissionEffect w in
  let w := geolocationEffect w in
  let w := distanceEffect now initialState w in
  let w := intervalEffect now initialState w in
  let w := countdownEffect now initialState w in
  pass now (pass now w).

(** Event handlers. *)
Definition handleMapClick (la lo : Q) (w : World) : World :=
  let (t, b) := newTuple la lo (env w) in
  onState (setDestinationPosition (Some t)) (withEnv b w).

Definition resetDestination (s : State) : State :=
  setLastNotificationTime 0
    (setIsNearDestination false
       (setDistanceMeters None (setDestinationPosition None s))).

Definition toggleNotifications (s : State) : State :=
  setNotificationsEnabled (negb (notificationsEnabled s)) s.

Definition handleDistanceChange (distance : Z) (s : State) : State :=
  setLastNotificationTime 0 (setSelectedDistance distance s).

(** The [onClick] of the "I'm up (5 min)" button. *)
Definition imUp (now : Z) (s : State) : State :=
  setLastNotificationTime (now + 300000) s.

(** The success and error callbacks of [watchPosition]. *)
Definition onPosition (latitude longitude : Q) (w : World) : World :=
  let (t, b) := newTuple latitude longitude (env w) in
  onState (fun s => setGeoError None (setUserPosition (Some t) s)) (withEnv b w).

Definition onPositionError (message : string) (s : State) : State :=
  setGeoError
    (Some (if String.eqb message EmptyString
           then "Failed to retrieve position"%string else message)) s.

(** What is rendered decides which controls can be used. *)
Definition resetVisible (s : State) : bool := isSome (destinationPosition s).

Definition imUpVisible (s : State) : bool :=
  isSome (destinationPosition s) && notificationsEnabled s
  && (countdownSeconds s =? 0).

Definition findInterval (h : nat) (b : Browser) : option Interval :=
  find (fun i => Nat.eqb (handle i) h) (intervals b).

Definition reschedule (h : nat) (b : Browser) : Browser :=
  withIntervals (nextHandle b)
    (map (fun i => if Nat.eqb (handle i) h
                   then mkInterval (handle i) (period i) (due i + period i) (callback i)
                   else i) (intervals b)) b.

Definition unmount (w : World) : World :=
  withMounted false
    (withCountdownCleanup None
       (withIntervalCleanup None
          (countdownCleanupRun (intervalCleanupRun (geolocationCleanup w))))).

Inductive Event : Type :=
| EvPosition (latitude longitude : Q)
| EvPositionError (message : string)
| EvPermission (p : Permission)
| EvMapClick (la lo : Q)
| EvReset
| EvToggle
| EvDistanceChange (km : Z)
| EvImUp
| EvTimer (h : nat)
| EvUnmount.

(** One event at time [now]: the handler, then the renders it causes. *)
Definition step (now : Z) (ev : Event) (w : World) : World :=
  if negb (mounted w) then w else
  match ev with
  | EvPosition la lo =>
      if isSome (watchCleanup w) then commit now (onPosition la lo w) else w
  | EvPositionError m =>
      if isSome (watchCleanup w) then commit now (onState (onPositionError m) w) else w
  | EvPermission p =>
      if prompting (env w) then onEnv (withPermission p false) w else w
  | EvMapClick la lo => commit now (handleMapClick la lo w)
  | EvReset =>
      if resetVisible (st w) then commit now (onState resetDestination w) else w
  | EvToggle => commit now (onState toggleNotifications w)
  | EvDistanceChange km =>
      if existsb (Z.eqb km) distanceOptions
      then commit now (onState (handleDistanceChange km) w) else w
  | EvImUp =>
      if imUpVisible (st w) then commit now (onState (imUp now) w) else w
  | EvTimer h =>
      match findInterval h (env w) with
      | Some i =>
          if due i <=? now
          then commit now (runCallback now (callback i) (onEnv (reschedule h) w))
          else w
      | None => w
      end
  | EvUnmount => unmount w
  end.

(** The worlds a run of the component can be in. *)
Inductive Reachable : World -> Prop :=
| Reachable_mount (now : Z) (geo notif : bool) (p : Permission) :
    0 <= now -> Reachable (mount now (freshBrowser geo notif p))
| Reachable_step (now : Z) (ev : Event) (w : World) :
    Reachable w -> 0 <= now -> Reachable (step now ev w).

Fixpoint run (evs : list (Z * Event)) (w : World) : World :=
  match evs with
  | [] => w
  | (now, ev) :: rest => run rest (step now ev w)
  end.

(** ** What the claims speak about *)

(** The distance of lines 197-202: both tuples turned into [LatLng] and
    handed to [distanceTo]. *)
Definition computeDistance (a b : Tuple) : Q :=
  distanceTo (L_latLng (lat a) (lng a)) (L_latLng (lat b) (lng b)).

(** The specification's [evaluateProximity], written from its words: no
    distance and not near when a point is absent, otherwise the distance
    and its comparison with the threshold in metres.  The component has no
    such function; it is compared below with what effect 3 leaves in the
    state. *)
Definition evaluateProximity (current destination : option Tuple) (thresholdKm : Z)
  : option Q * bool :=
  match current, destination with
  | Some c, Some d =>
      let distance := computeDistance c d in
      (Some distance, Qle_bool distance (inject_Z (thresholdKm * 1000)))
  | _, _ => (None, false)
  end.

(** The state agrees with [evaluateProximity]. *)
Definition synced (s : State) : Prop :=
  (distanceMeters s, isNearDestination s)
  = evaluateProximity (userPosition s) (destinationPosition s) (selectedDistance s).

(** The snooze as the component represents it: the countdown effect and
    the "Notifications paused" text test [lastNotificationTime > Date.now()]. *)
Definition snoozeActive (now : Z) (s : State) : bool :=
  lastNotificationTime s >? now.

(** Effect 3 is still to run on a state with both points present. *)
Definition pending (w : World) : Prop :=
  distanceDepsChanged (rendered w) (st w) = true
  /\ isSome (userPosition (st w)) = true
  /\ isSome (destinationPosition (st w)) = true.

(** Every array in the state was allocated before the next address. *)
Definition addrBelow (n : nat) (o : option Tuple) : Prop :=
  forall t, o = Some t -> (addr t < n)%nat.

Definition addrOk (w : World) : Prop :=
  addrBelow (nextAddr (env w)) (userPosition (st w))
  /\ addrBelow (nextAddr (env w)) (destinationPosition (st w))
  /\ addrBelow (nextAddr (env w)) (userPosition (rendered w))
  /\ addrBelow (nextAddr (env w)) (destinationPosition (rendered w)).

(** Every scheduled interval is the one a cleanup closure will clear. *)
Definition owned (w : World) : Prop :=
  forall i, In i (intervals (env w)) ->
    intervalCleanup w = Some (handle i) \/ countdownCleanup w = Some (handle i).

(** Effect 4 keeps no interval for a render without notifications or
    without destination, effect 5 none for a time that is not ahead. *)
Definition intervalIdle (w : World) : Prop :=
  notificationsEnabled (rendered w) = false
  \/ destinationPosition (rendered w) = None ->
  intervalCleanup w = None.

Definition countdownIdle (w : World) : Prop :=
  lastNotificationTime (rendered w) <= 0 -> countdownCleanup w = None.

Definition watchOwned (w : World) : Prop :=
  forall id, In id (watches (env w)) -> watchCleanup w = Some id.

Definition resourcesOk (w : World) : Prop :=
  owned w /\ intervalIdle w /\ countdownIdle w /\ watchOwned w.

(** What a run keeps true between events. *)
Definition Inv (w : World) : Prop :=
  synced (st w) /\ rendered w = st w /\ addrOk w /\ resourcesOk w.

(** The fields no effect of a re-render writes. *)
Definition frameOf (w : World) :=
  (userPosition (st w), destinationPosition (st w), selectedDistance (st w),
   notificationsEnabled (st w), geoError (st w),
   (mounted w, rendered w, watchCleanup w),
   (watches (env w), nextAddr (env w), permission (env w),
    hasNotification (env w), hasGeolocation (env w), prompting (env w))).

(** What only effect 3 and the interval callback write. *)
Definition proximityOf (w : World) :=
  (distanceMeters (st w), isNearDestination (st w),
   lastNotificationTime (st w), shown (env w)).

Definition when (c : bool) (f : World -> World) (w : World) : World :=
  if c then f w else w.

(** ** Lemmas on the effects *)

Ltac unfold_effects :=
  unfold distanceEffect, intervalEffect, countdownEffect,
    intervalCleanupRun, countdownCleanupRun, sendNotification, setInterval,
    clearInterval, when, frameOf, proximityOf in *; cbn.

Ltac split_matches :=
  repeat match goal with
  | |- context [match ?x with _ => _ end] => destruct x eqn:?; cbn
  end.

Lemma pass_when now w :
  pass now w =
  let r := st w in
  let d := rendered w in
  withRendered r
    (when (countdownDepsChanged d r) (countdownEffect now r)
       (when (intervalDepsChanged d r) (intervalEffect now r)
          (when (distanceDepsChanged d r) (distanceEffect now r)
             (when (countdownDepsChanged d r) countdownCleanupRun
                (when (intervalDepsChanged d r) intervalCleanupRun w))))).
Proof. reflexivity. Qed.

Lemma when_keeps {A : Type} (obs : World -> A) c f w :
  (forall w', obs (f w') = obs w') -> obs (when c f w) = obs w.
Proof. intros H. unfold when. destruct c; auto. Qed.

Lemma distanceEffect_frame now r w : frameOf (distanceEffect now r w) = frameOf w.
Proof. unfold_effects. split_matches; reflexivity. Qed.

Lemma intervalEffect_frame now r w : frameOf (intervalEffect now r w) = frameOf w.
Proof. unfold_effects. split_matches; reflexivity. Qed.

Lemma countdownEffect_frame now r w : frameOf (countdownEffect now r w) = frameOf w.
Proof. unfold_effects. split_matches; reflexivity. Qed.

Lemma intervalCleanupRun_frame w : frameOf (intervalCleanupRun w) = frameOf w.
Proof. unfold_effects. split_matches; reflexivity. Qed.

Lemma countdownCleanupRun_frame w : frameOf (countdownCleanupRun w) = frameOf w.
Proof. unfold_effects. split_matches; reflexivity. Qed.

Lemma intervalEffect_proximity now r w :
  proximityOf (intervalEffect now r w) = proximityOf w.
Proof. unfold_effects. split_matches; reflexivity. Qed.

Lemma countdownEffect_proximity now r w :
  proximityOf (countdownEffect now r w) = proximityOf w.
Proof. unfold_effects. split_matches; reflexivity. Qed.

Lemma intervalCleanupRun_proximity w :
  proximityOf (intervalCleanupRun w) = proximityOf w.
Proof. unfold_effects. split_matches; reflexivity. Qed.

Lemma countdownCleanupRun_proximity w :
  proximityOf (countdownCleanupRun w) = proximityOf w.
Proof. unfold_effects. split_matches; reflexivity. Qed.

Lemma cleanups_st w c4 c5 :
  st (when c5 countdownCleanupRun (when c4 intervalCleanupRun w)) = st w.
Proof. unfold_effects. destruct c4, c5; cbn; split_matches; reflexivity. Qed.

(** A re-render writes none of the inputs. *)
Lemma pass_frame now w :
  let w' := pass now w in
  userPosition (st w') = userPosition (st w)
  /\ destinationPosition (st w') = destinationPosition (st w)
  /\ selectedDistance (st w') = selectedDistance (st w)
  /\ notificationsEnabled (st w') = notificationsEnabled (st w)
  /\ geoError (st w') = geoError (st w)
  /\ mounted w' = mounted w
  /\ watchCleanup w' = watchCleanup w
  /\ watches (env w') = watches (env w)
  /\ nextAddr (env w') = nextAddr (env w)
  /\ permission (env w') = permission (env w)
  /\ hasNotification (env w') = hasNotification (env w)
  /\ rendered w' = st w.
Proof.
  cbn zeta. rewrite pass_when. cbn zeta.
  set (r := st w). set (d := rendered w).
  match goal with |- context [withRendered r ?x] => set (w5 := x) end.
  assert (H : frameOf w5 = frameOf w).
  { subst w5.
    rewrite (when_keeps frameOf) by apply countdownEffect_frame.
    rewrite (when_keeps frameOf) by apply intervalEffect_frame.
    rewrite (when_keeps frameOf) by apply distanceEffect_frame.
    rewrite (when_keeps frameOf) by apply countdownCleanupRun_frame.
    rewrite (when_keeps frameOf) by apply intervalCleanupRun_frame.
    reflexivity. }
  unfold frameOf in H. inversion H. cbn. repeat split; assumption || reflexivity.
Qed.

Lemma distanceEffect_proximity now r w :
  (distanceMeters (st (distanceEffect now r w)),
   isNearDestination (st (distanceEffect now r w)))
  = match userPosition r, destinationPosition r with
    | Some _, Some _ =>
        evaluateProximity (userPosition r) (destinationPosition r) (selectedDistance r)
    | _, _ => (distanceMeters (st w), isNearDestination (st w))
    end.
Proof.
  unfold_effects. unfold evaluateProximity, computeDistance.
  split_matches; reflexivity.
Qed.

Lemma synced_ext w1 w2 :
  frameOf w1 = frameOf w2 -> proximityOf w1 = proximityOf w2 ->
  synced (st w1) -> synced (st w2).
Proof.
  unfold frameOf, proximityOf, synced. intros F P H.
  inversion F. inversion P. congruence.
Qed.

Lemma pass_synced now w :
  synced (st w) \/ pending w -> synced (st (pass now w)).
Proof.
  intros H. rewrite pass_when. cbn zeta.
  set (r := st w). set (d := rendered w).
  set (w2 := when (countdownDepsChanged d r) countdownCleanupRun
               (when (intervalDepsChanged d r) intervalCleanupRun w)).
  set (w3 := when (distanceDepsChanged d r) (distanceEffect now r) w2).
  assert (S2 : st w2 = r) by apply cleanups_st.
  assert (S3 : synced (st w3)).
  { subst w3. unfold when. destruct (distanceDepsChanged d r) eqn:C3.
    - unfold synced.
      assert (F : userPosition (st (distanceEffect now r w2)) = userPosition r
                  /\ destinationPosition (st (distanceEffect now r w2)) = destinationPosition r
                  /\ selectedDistance (st (distanceEffect now r w2)) = selectedDistance r).
      { pose proof (distanceEffect_frame now r w2) as F. unfold frameOf in F.
        rewrite <- S2. repeat split; congruence. }
      destruct F as (F1 & F2 & F3). rewrite F1, F2, F3.
      rewrite distanceEffect_proximity. rewrite S2.
      destruct H as [H | (_ & Hu & Hd)].
      + unfold synced in H. fold r in H.
        destruct (userPosition r), (destinationPosition r); auto.
      + fold r in Hu, Hd.
        destruct (userPosition r), (destinationPosition r); auto; discriminate.
    - rewrite S2. destruct H as [H | (Hc & _)]; [exact H |].
      fold r d in Hc. congruence. }
  change (synced (st (when (countdownDepsChanged d r) (countdownEffect now r)
                        (when (intervalDepsChanged d r) (intervalEffect now r) w3)))).
  apply (synced_ext w3); auto.
  - rewrite (when_keeps frameOf) by apply countdownEffect_frame.
    rewrite (when_keeps frameOf) by apply intervalEffect_frame. reflexivity.
  - rewrite (when_keeps proximityOf) by apply countdownEffect_proximity.
    rewrite (when_keeps proximityOf) by apply intervalEffect_proximity. reflexivity.
Qed.

Lemma pass_addrOk now w : addrOk w -> addrOk (pass now w).
Proof.
  unfold addrOk. intros (A & B & _ & _).
  destruct (pass_frame now w) as (U & D & _ & _ & _ & _ & _ & _ & N & _ & _ & R).
  rewrite U, D, N, R. auto.
Qed.

(** Ownership of the scheduled intervals while a render is under way:
    [a] (resp. [b]) says the cleanup of effect 4 (resp. 5) has run and the
    effect itself has not yet. *)
Definition ownedDuring (a b : bool) (w : World) : Prop :=
  forall i, In i (intervals (env w)) ->
    (a = false /\ intervalCleanup w = Some (handle i))
    \/ (b = false /\ countdownCleanup w = Some (handle i)).

Lemma owned_during w : owned w <-> ownedDuring false false w.
Proof.
  unfold owned, ownedDuring. split; intros H i Hi; destruct (H i Hi); intuition.
Qed.

Lemma intervalCleanupRun_owned b w :
  ownedDuring false b w -> ownedDuring true b (intervalCleanupRun w).
Proof.
  unfold ownedDuring, intervalCleanupRun. intros H.
  destruct (intervalCleanup w) as [h|] eqn:E; cbn.
  - intros i Hi. apply filter_In in Hi. destruct Hi as (Hi & Hn).
    destruct (H i Hi) as [(_ & A) | B]; auto.
    try rewrite E in A. inversion A; subst. rewrite Nat.eqb_refl in Hn. discriminate.
  - intros i Hi. destruct (H i Hi) as [(_ & A) | B]; auto. congruence.
Qed.

Lemma countdownCleanupRun_owned a w :
  ownedDuring a false w -> ownedDuring a true (countdownCleanupRun w).
Proof.
  unfold ownedDuring, countdownCleanupRun. intros H.
  destruct (countdownCleanup w) as [h|] eqn:E; cbn.
  - intros i Hi. apply filter_In in Hi. destruct Hi as (Hi & Hn).
    destruct (H i Hi) as [A | (_ & B)]; auto.
    try rewrite E in B. inversion B; subst. rewrite Nat.eqb_refl in Hn. discriminate.
  - intros i Hi. destruct (H i Hi) as [A | (_ & B)]; auto. congruence.
Qed.

Lemma distanceEffect_owned a b now r w :
  ownedDuring a b w -> ownedDuring a b (distanceEffect now r w).
Proof.
  unfold ownedDuring. unfold_effects. intros H. split_matches; exact H.
Qed.

Lemma intervalEffect_owned b now r w :
  ownedDuring true b w -> ownedDuring false b (intervalEffect now r w).
Proof.
  unfold ownedDuring. unfold_effects. intros H. split_matches; intros i Hi.
  - apply filter_In in Hi. destruct Hi as (Hi & _).
    destruct (H i Hi) as [(A & _) | B]; [discriminate | auto].
  - destruct (H i Hi) as [(A & _) | B]; [discriminate | auto].
  - apply in_app_iff in Hi. destruct Hi as [Hi | [Hi | []]].
    + destruct (H i Hi) as [(A & _) | B]; [discriminate | auto].
    + subst i. cbn. auto.
Qed.

Lemma countdownEffect_owned a now r w :
  ownedDuring a true w -> ownedDuring a false (countdownEffect now r w).
Proof.
  unfold ownedDuring. unfold_effects. intros H. split_matches; intros i Hi.
  - apply in_app_iff in Hi. destruct Hi as [Hi | [Hi | []]].
    + destruct (H i Hi) as [A | (B & _)]; [auto | discriminate].
    + subst i. cbn. auto.
  - destruct (H i Hi) as [A | (B & _)]; [auto | discriminate].
Qed.

Lemma pass_owned now w : owned w -> owned (pass now w).
Proof.
  intros H. apply owned_during in H. apply owned_during.
  rewrite pass_when. cbn zeta.
  set (r := st w). set (d := rendered w).
  set (c4 := intervalDepsChanged d r). set (c5 := countdownDepsChanged d r).
  set (c3 := distanceDepsChanged d r).
  assert (H1 : ownedDuring c4 false (when c4 intervalCleanupRun w)).
  { unfold when. destruct c4; auto using intervalCleanupRun_owned. }
  assert (H2 : ownedDuring c4 c5
                 (when c5 countdownCleanupRun (when c4 intervalCleanupRun w))).
  { unfold when at 1. destruct c5; auto using countdownCleanupRun_owned. }
  set (w2 := when c5 countdownCleanupRun (when c4 intervalCleanupRun w)) in *.
  assert (H3 : ownedDuring c4 c5 (when c3 (distanceEffect now r) w2)).
  { unfold when at 1. destruct c3; auto using distanceEffect_owned. }
  set (w3 := when c3 (distanceEffect now r) w2) in *.
  assert (H4 : ownedDuring false c5 (when c4 (intervalEffect now r) w3)).
  { unfold when at 1. destruct c4; auto using intervalEffect_owned. }
  set (w4 := when c4 (intervalEffect now r) w3) in *.
  assert (H5 : ownedDuring false false (when c5 (countdownEffect now r) w4)).
  { unfold when at 1. destruct c5; auto using countdownEffect_owned. }
  exact H5.
Qed.

Lemma intervalCleanup_kept now r w :
  intervalCleanup (intervalCleanupRun w) = intervalCleanup w
  /\ intervalCleanup (countdownCleanupRun w) = intervalCleanup w
  /\ intervalCleanup (distanceEffect now r w) = intervalCleanup w
  /\ intervalCleanup (countdownEffect now r w) = intervalCleanup w.
Proof. unfold_effects. repeat split; split_matches; cbn; congruence. Qed.

Lemma countdownCleanup_kept now r w :
  countdownCleanup (intervalCleanupRun w) = countdownCleanup w
  /\ countdownCleanup (countdownCleanupRun w) = countdownCleanup w
  /\ countdownCleanup (distanceEffect now r w) = countdownCleanup w
  /\ countdownCleanup (intervalEffect now r w) = countdownCleanup w.
Proof. unfold_effects. repeat split; split_matches; cbn; congruence. Qed.

Lemma intervalEffect_idle now r w :
  notificationsEnabled r = false \/ destinationPosition r = None ->
  intervalCleanup (intervalEffect now r w) = None.
Proof.
  unfold_effects. intros [H | H]; rewrite H; cbn;
    rewrite ?orb_true_r; split_matches; reflexivity.
Qed.

Lemma countdownEffect_idle now r w :
  lastNotificationTime r <= now ->
  countdownCleanup (countdownEffect now r w) = None.
Proof.
  unfold_effects. intros H.
  destruct (lastNotificationTime r >? now) eqn:E; [lia | reflexivity].
Qed.

Lemma sameRef_None a b : sameRef a b = true -> b = None -> a = None.
Proof. destruct a, b; cbn; congruence. Qed.

Lemma intervalDeps_same d r :
  intervalDepsChanged d r = false ->
  notificationsEnabled d = notificationsEnabled r
  /\ sameRef (destinationPosition d) (destinationPosition r) = true
  /\ sameRef (userPosition d) (userPosition r) = true
  /\ selectedDistance d = selectedDistance r.
Proof.
  unfold intervalDepsChanged. intros H.
  repeat (apply orb_false_elim in H; destruct H as (H & ?)).
  repeat match goal with
         | X : negb _ = false |- _ => apply negb_false_iff in X
         end.
  repeat split; auto using eqb_prop. now apply Z.eqb_eq.
Qed.

Lemma countdownDeps_same d r :
  countdownDepsChanged d r = false ->
  lastNotificationTime d = lastNotificationTime r.
Proof.
  unfold countdownDepsChanged. intros H.
  apply negb_false_iff in H. now apply Z.eqb_eq.
Qed.

Lemma pass_intervalCleanup now w :
  intervalCleanup (pass now w) =
  if intervalDepsChanged (rendered w) (st w)
  then intervalCleanup
         (intervalEffect now (st w)
            (when (distanceDepsChanged (rendered w) (st w)) (distanceEffect now (st w))
               (when (countdownDepsChanged (rendered w) (st w)) countdownCleanupRun
                  (intervalCleanupRun w))))
  else intervalCleanup w.
Proof.
  rewrite pass_when. cbn zeta.
  set (r := st w). set (d := rendered w).
  change (intervalCleanup (withRendered r ?x)) with (intervalCleanup x).
  rewrite (when_keeps intervalCleanup) by (intro; apply (intervalCleanup_kept now r)).
  destruct (intervalDepsChanged d r); unfold when at 1; [reflexivity |].
  rewrite (when_keeps intervalCleanup) by (intro; apply (intervalCleanup_kept now r)).
  rewrite (when_keeps intervalCleanup) by (intro; apply (intervalCleanup_kept now r)).
  reflexivity.
Qed.

Lemma pass_intervalIdle now w : intervalIdle w -> intervalIdle (pass now w).
Proof.
  unfold intervalIdle. intros H C.
  destruct (pass_frame now w) as (_ & _ & _ & _ & _ & _ & _ & _ & _ & _ & _ & R).
  rewrite R in C. rewrite pass_intervalCleanup.
  destruct (intervalDepsChanged (rendered w) (st w)) eqn:E.
  - now apply intervalEffect_idle.
  - apply intervalDeps_same in E. destruct E as (E1 & E2 & _).
    apply H. destruct C as [C | C]; [left; congruence | right].
    eapply sameRef_None; eauto.
Qed.

Lemma pass_countdownIdle now w :
  0 <= now -> countdownIdle w -> countdownIdle (pass now w).
Proof.
  unfold countdownIdle. intros Hn H C.
  destruct (pass_frame now w) as (_ & _ & _ & _ & _ & _ & _ & _ & _ & _ & _ & R).
  rewrite R in C. rewrite pass_when. cbn zeta.
  set (r := st w) in *. set (d := rendered w) in *.
  change (countdownCleanup (withRendered r ?x)) with (countdownCleanup x).
  destruct (countdownDepsChanged d r) eqn:E; unfold when at 1.
  - apply countdownEffect_idle. lia.
  - repeat rewrite (when_keeps countdownCleanup)
      by (intro; apply (countdownCleanup_kept now r)).
    apply H. apply countdownDeps_same in E. lia.
Qed.

Lemma pass_watchOwned now w : watchOwned w -> watchOwned (pass now w).
Proof.
  unfold watchOwned. intros H id.
  destruct (pass_frame now w) as (_ & _ & _ & _ & _ & _ & C & W & _).
  rewrite C, W. apply H.
Qed.

Lemma pass_resourcesOk now w :
  0 <= now -> resourcesOk w -> resourcesOk (pass now w).
Proof.
  intros Hn (A & B & C & D). repeat split.
  - now apply pass_owned.
  - now apply pass_intervalIdle.
  - now apply pass_countdownIdle.
  - now apply pass_watchOwned.
Qed.

(** A render brings the state up to date once effect 3 is due wherever it
    is out of date, and every render keeps the rest. *)
Lemma pass_keeps now w :
  0 <= now ->
  (synced (st w) \/ pending w) -> addrOk w -> resourcesOk w ->
  synced (st (pass now w)) /\ addrOk (pass now w) /\ resourcesOk (pass now w).
Proof.
  intros Hn S A R. repeat split.
  - now apply pass_synced.
  - apply pass_addrOk; assumption.
  - apply pass_addrOk; assumption.
  - apply pass_addrOk; assumption.
  - apply pass_addrOk; assumption.
  - now apply pass_owned, R.
  - now apply pass_intervalIdle, R.
  - now apply pass_countdownIdle, R.
  - now apply pass_watchOwned, R.
Qed.

(** *** Three renders settle the component *)

Lemma sameRef_refl a : sameRef a a = true.
Proof. destruct a; cbn; auto using Nat.eqb_refl. Qed.

Lemma depsChanged_split d r :
  distanceDepsChanged d r =
  intervalDepsChanged d r || countdownDepsChanged d r.
Proof.
  unfold distanceDepsChanged, intervalDepsChanged, countdownDepsChanged.
  destruct (sameRef (userPosition d) (userPosition r)),
    (sameRef (destinationPosition d) (destinationPosition r)),
    (selectedDistance d =? selectedDistance r),
    (Bool.eqb (notificationsEnabled d) (notificationsEnabled r)); reflexivity.
Qed.

Lemma depsChanged_inputs d r :
  userPosition d = userPosition r ->
  destinationPosition d = destinationPosition r ->
  selectedDistance d = selectedDistance r ->
  notificationsEnabled d = notificationsEnabled r ->
  lastNotificationTime d = lastNotificationTime r ->
  distanceDepsChanged d r = false.
Proof.
  unfold distanceDepsChanged. intros -> -> -> -> ->.
  now rewrite !sameRef_refl, !Z.eqb_refl, Bool.eqb_reflx.
Qed.

(** A render none of whose dependencies changed runs no effect. *)
Lemma pass_idle now w :
  distanceDepsChanged (rendered w) (st w) = false ->
  pass now w = withRendered (st w) w.
Proof.
  intros H. rewrite pass_when. cbn zeta. rewrite H.
  rewrite depsChanged_split in H. apply orb_false_elim in H.
  destruct H as (-> & ->). reflexivity.
Qed.

Lemma effects_last now r w :
  lastNotificationTime (st (intervalCleanupRun w)) = lastNotificationTime (st w)
  /\ lastNotificationTime (st (countdownCleanupRun w)) = lastNotificationTime (st w)
  /\ lastNotificationTime (st (intervalEffect now r w)) = lastNotificationTime (st w)
  /\ lastNotificationTime (st (countdownEffect now r w)) = lastNotificationTime (st w).
Proof. unfold_effects. repeat split; split_matches; cbn; congruence. Qed.

Lemma distanceEffect_last now r w :
  lastNotificationTime (st (distanceEffect now r w)) = lastNotificationTime (st w)
  \/ (lastNotificationTime (st (distanceEffect now r w)) = now
      /\ 30000 <= now - lastNotificationTime r).
Proof.
  unfold distanceEffect.
  destruct (userPosition r) as [up|]; [| now left].
  destruct (destinationPosition r) as [dp|]; [| now left].
  cbv zeta.
  destruct (Qle_bool _ _); rewrite ?andb_false_r; cbn; [| now left].
  destruct (notificationsEnabled r); cbn; [| now left].
  destruct (now - lastNotificationTime r >=? 30000) eqn:E; cbn; [| now left].
  right. split; [reflexivity | lia].
Qed.

(** The time of the last notification after one render: effect 3 moved it
    to [now], or nothing touched it. *)
Lemma pass_last now w :
  lastNotificationTime (st (pass now w)) = lastNotificationTime (st w)
  \/ (lastNotificationTime (st (pass now w)) = now
      /\ distanceDepsChanged (rendered w) (st w) = true
      /\ 30000 <= now - lastNotificationTime (st w)).
Proof.
  rewrite pass_when. cbn zeta.
  set (r := st w). set (d := rendered w).
  change (st (withRendered r ?x)) with (st x).
  rewrite (when_keeps (fun w => lastNotificationTime (st w)))
    by (intro; apply (effects_last now r)).
  rewrite (when_keeps (fun w => lastNotificationTime (st w)))
    by (intro; apply (effects_last now r)).
  set (w2 := when (countdownDepsChanged d r) countdownCleanupRun
               (when (intervalDepsChanged d r) intervalCleanupRun w)).
  assert (L2 : lastNotificationTime (st w2) = lastNotificationTime r).
  { unfold w2. now rewrite cleanups_st. }
  unfold when. destruct (distanceDepsChanged d r) eqn:C3; [| now left].
  destruct (distanceEffect_last now r w2) as [E | (E & T)].
  - left. congruence.
  - right. auto.
Qed.

Lemma pass_deps_stable now w :
  lastNotificationTime (st (pass now w)) = lastNotificationTime (st w) ->
  distanceDepsChanged (rendered (pass now w)) (st (pass now w)) = false.
Proof.
  intros L.
  destruct (pass_frame now w) as (U & D & K & N & _ & _ & _ & _ & _ & _ & _ & R).
  rewrite R. apply depsChanged_inputs; congruence.
Qed.

(** After the renders of [commit] the rendered values are the state: no
    further render would run an effect. *)
Lemma commit_settled now w : rendered (commit now w) = st (commit now w).
Proof.
  unfold commit.
  assert (S2 : distanceDepsChanged (rendered (pass now (pass now w)))
                 (st (pass now (pass now w))) = false).
  { apply pass_deps_stable.
    destruct (pass_last now (pass now w)) as [L | (_ & C & T)]; [exact L |].
    destruct (pass_last now w) as [L0 | (L0 & _)].
    - rewrite (pass_deps_stable now w L0) in C. discriminate.
    - rewrite L0 in T. lia. }
  rewrite (pass_idle now _ S2). reflexivity.
Qed.

(** *** The invariant along a run *)

Lemma commit_Inv now w :
  0 <= now ->
  (synced (st w) \/ pending w) -> addrOk w -> resourcesOk w ->
  Inv (commit now w).
Proof.
  intros Hn S A R.
  assert (K : synced (st (commit now w)) /\ addrOk (commit now w)
              /\ resourcesOk (commit now w)).
  { unfold commit.
    destruct (pass_keeps now w Hn S A R) as (S1 & A1 & R1).
    destruct (pass_keeps now _ Hn (or_introl S1) A1 R1) as (S2 & A2 & R2).
    exact (pass_keeps now _ Hn (or_introl S2) A2 R2). }
  destruct K as (S3 & A3 & R3). repeat split; auto using commit_settled;
    try apply A3; apply R3.
Qed.

Lemma synced_same s s' :
  distanceMeters s' = distanceMeters s ->
  isNearDestination s' = isNearDestination s ->
  userPosition s' = userPosition s ->
  destinationPosition s' = destinationPosition s ->
  selectedDistance s' = selectedDistance s ->
  synced s -> synced s'.
Proof. unfold synced. intros -> -> -> -> ->. auto. Qed.

Lemma synced_absent s :
  synced s ->
  userPosition s = None \/ destinationPosition s = None ->
  distanceMeters s = None /\ isNearDestination s = false.
Proof.
  unfold synced, evaluateProximity. intros H [E | E]; rewrite E in H.
  - inversion H; auto.
  - destruct (userPosition s); inversion H; auto.
Qed.

Lemma addrBelow_S n o : addrBelow n o -> addrBelow (S n) o.
Proof. unfold addrBelow. intros H t E. specialize (H t E). lia. Qed.

Lemma sameRef_fresh n o la lo :
  addrBelow n o -> sameRef o (Some (mkTuple n la lo)) = false.
Proof.
  unfold addrBelow. intros H. destruct o as [t|]; cbn; [| reflexivity].
  apply Nat.eqb_neq. specialize (H t eq_refl). lia.
Qed.

Lemma onPosition_ready la lo w :
  Inv w ->
  let w' := onPosition la lo w in
  (synced (st w') \/ pending w') /\ addrOk w' /\ resourcesOk w'.
Proof.
  intros (S & E & (A1 & A2 & A3 & A4) & R). cbn. repeat split.
  - destruct (destinationPosition (st w)) as [dp|] eqn:D.
    + right. unfold pending, distanceDepsChanged. cbn.
      rewrite (sameRef_fresh _ _ la lo A3). cbn. rewrite D. auto.
    + left. destruct (synced_absent _ S (or_intror D)) as (X & Y).
      unfold synced, evaluateProximity. cbn. rewrite X, Y, D. reflexivity.
  - intros t H. cbn in H. inversion H. cbn. lia.
  - cbn. now apply addrBelow_S.
  - cbn. now apply addrBelow_S.
  - cbn. now apply addrBelow_S.
  - apply R.
  - apply R.
  - apply R.
  - apply R.
Qed.

Lemma handleMapClick_ready la lo w :
  Inv w ->
  let w' := handleMapClick la lo w in
  (synced (st w') \/ pending w') /\ addrOk w' /\ resourcesOk w'.
Proof.
  intros (S & E & (A1 & A2 & A3 & A4) & R). cbn. repeat split.
  - destruct (userPosition (st w)) as [up|] eqn:U.
    + right. unfold pending, distanceDepsChanged. cbn.
      rewrite (sameRef_fresh _ _ la lo A4). rewrite orb_true_r. cbn.
      rewrite U. auto.
    + left. destruct (synced_absent _ S (or_introl U)) as (X & Y).
      unfold synced, evaluateProximity. cbn. rewrite X, Y, U. reflexivity.
  - cbn. now apply addrBelow_S.
  - intros t H. cbn in H. inversion H. cbn. lia.
  - cbn. now apply addrBelow_S.
  - cbn. now apply addrBelow_S.
  - apply R.
  - apply R.
  - apply R.
  - apply R.
Qed.

Lemma handleDistanceChange_ready km w :
  Inv w ->
  let w' := onState (handleDistanceChange km) w in
  (synced (st w') \/ pending w') /\ addrOk w' /\ resourcesOk w'.
Proof.
  intros (S & E & A & R). cbn. split; [| split; [exact A | exact R]].
  destruct (userPosition (st w)) as [up|] eqn:U;
    [destruct (destinationPosition (st w)) as [dp|] eqn:D |].
  - destruct (Z.eq_dec (selectedDistance (st w)) km) as [K | K].
    + left. subst km. revert S. apply synced_same; reflexivity.
    + right. unfold pending, distanceDepsChanged. cbn. rewrite E, U, D.
      apply Z.eqb_neq in K. rewrite K. cbn. rewrite !orb_true_r. auto.
  - left. destruct (synced_absent _ S (or_intror D)) as (X & Y).
    unfold synced, evaluateProximity. cbn. rewrite X, Y, U, D. reflexivity.
  - left. destruct (synced_absent _ S (or_introl U)) as (X & Y).
    unfold synced, evaluateProximity. cbn. rewrite X, Y, U. reflexivity.
Qed.

Lemma resetDestination_ready w :
  Inv w ->
  let w' := onState resetDestination w in
  (synced (st w') \/ pending w') /\ addrOk w' /\ resourcesOk w'.
Proof.
  intros (S & E & (A1 & A2 & A3 & A4) & R). cbn. split; [| split].
  - left. unfold synced, evaluateProximity. cbn.
    destruct (userPosition (st w)); reflexivity.
  - repeat split; auto. intros t H. discriminate.
  - exact R.
Qed.

(** Handlers that leave positions, threshold, distance and near flag
    alone. *)
Lemma quiet_ready (f : State -> State) w :
  (forall s, distanceMeters (f s) = distanceMeters s
             /\ isNearDestination (f s) = isNearDestination s
             /\ userPosition (f s) = userPosition s
             /\ destinationPosition (f s) = destinationPosition s
             /\ selectedDistance (f s) = selectedDistance s) ->
  Inv w ->
  let w' := onState f w in
  (synced (st w') \/ pending w') /\ addrOk w' /\ resourcesOk w'.
Proof.
  intros F (S & E & (A1 & A2 & A3 & A4) & R). cbn.
  destruct (F (st w)) as (F1 & F2 & F3 & F4 & F5). split; [| split].
  - left. revert S. now apply synced_same.
  - unfold addrOk. cbn. rewrite F3, F4. auto.
  - exact R.
Qed.

Lemma reschedule_handles h b i :
  In i (intervals (reschedule h b)) ->
  exists j, In j (intervals b) /\ handle i = handle j.
Proof.
  unfold reschedule. cbn. intros H. apply in_map_iff in H.
  destruct H as (j & E & Hj). exists j. split; [exact Hj |].
  subst i. destruct (Nat.eqb (handle j) h); reflexivity.
Qed.

Lemma runCallback_ready now cb h w :
  Inv w ->
  let w' := runCallback now cb (onEnv (reschedule h) w) in
  (synced (st w') \/ pending w') /\ addrOk w' /\ resourcesOk w'.
Proof.
  intros (S & E & A & (O & I & C & W)).
  assert (O' : owned (onEnv (reschedule h) w)).
  { intros i Hi. apply reschedule_handles in Hi. destruct Hi as (j & Hj & ->).
    exact (O j Hj). }
  cbn zeta.
  unfold runCallback, sendNotification, addrOk, resourcesOk, owned,
    intervalIdle, countdownIdle, watchOwned, synced in *.
  destruct cb as [[up|] [dp|] km | last]; cbn in *;
    repeat match goal with
    | |- context [if ?c then _ else _] => destruct c; cbn in *
    end;
    (split; [left; exact S | split; [exact A | repeat split; assumption]]).
Qed.

Lemma ownedDuring_none w :
  ownedDuring true true w -> intervals (env w) = [].
Proof.
  unfold ownedDuring. intros H. destruct (intervals (env w)) as [| i l]; auto.
  destruct (H i (or_introl eq_refl)) as [(X & _) | (X & _)]; discriminate.
Qed.

(** Unmounting runs every cleanup: nothing stays scheduled. *)
Lemma unmount_released w :
  owned w -> watchOwned w ->
  intervals (env (unmount w)) = [] /\ watches (env (unmount w)) = [].
Proof.
  intros O W. unfold unmount.
  set (w1 := geolocationCleanup w).
  assert (W1 : watches (env w1) = []).
  { unfold w1, geolocationCleanup. destruct (watchCleanup w) as [id|] eqn:E; cbn.
    - destruct (filter _ (watches (env w))) as [| x l] eqn:F; auto.
      assert (In x (filter (fun i => negb (Nat.eqb i id)) (watches (env w))))
        as Hx by (rewrite F; now left).
      apply filter_In in Hx. destruct Hx as (Hx & Hn).
      apply W in Hx. rewrite E in Hx. inversion Hx; subst.
      rewrite Nat.eqb_refl in Hn. discriminate.
    - destruct (watches (env w)) as [| x l] eqn:F; auto.
      specialize (W x). rewrite F in W. specialize (W (or_introl eq_refl)).
      congruence. }
  assert (O1 : ownedDuring false false w1).
  { apply owned_during. unfold w1, geolocationCleanup.
    destruct (watchCleanup w); exact O. }
  apply intervalCleanupRun_owned in O1. apply countdownCleanupRun_owned in O1.
  apply ownedDuring_none in O1. cbn. split; [exact O1 |].
  unfold countdownCleanupRun, intervalCleanupRun.
  destruct (intervalCleanup w1); cbn; destruct (countdownCleanup _); cbn; exact W1.
Qed.

Lemma unmount_Inv w : Inv w -> Inv (unmount w).
Proof.
  intros (S & E & A & (O & I & C & W)).
  destruct (unmount_released w O W) as (X & Y).
  assert (F : st (unmount w) = st w /\ rendered (unmount w) = rendered w
              /\ nextAddr (env (unmount w)) = nextAddr (env w)).
  { unfold unmount, countdownCleanupRun, intervalCleanupRun, geolocationCleanup.
    destruct (watchCleanup w); cbn; destruct (intervalCleanup w); cbn;
      destruct (countdownCleanup w); cbn; auto. }
  destruct F as (F1 & F2 & F3). unfold Inv, addrOk, resourcesOk.
  rewrite F1, F2, F3. repeat split; auto; try apply A.
  - intros i Hi. rewrite X in Hi. destruct Hi.
  - intros id Hi. rewrite Y in Hi. destruct Hi.
Qed.

Lemma permission_Inv p w : Inv w -> Inv (onEnv (withPermission p false) w).
Proof. intros H. exact H. Qed.

Lemma mount_Inv now geo notif p :
  0 <= now -> Inv (mount now (freshBrowser geo notif p)).
Proof.
  intros Hn.
  unfold Inv, synced, addrOk, addrBelow, resourcesOk, owned, intervalIdle,
    countdownIdle, watchOwned, mount, permissionEffect, geolocationEffect.
  destruct now as [| n | n]; [| | lia];
    destruct geo, notif, p; cbn;
    (repeat split; cbn; try discriminate; try tauto;
     try (intros ? [<- | []]; reflexivity)).
Qed.

Theorem step_Inv now ev w : 0 <= now -> Inv w -> Inv (step now ev w).
Proof.
  intros Hn H. unfold step.
  destruct (mounted w); cbn [negb]; [| exact H].
  destruct ev.
  - destruct (isSome (watchCleanup w)); [| exact H].
    destruct (onPosition_ready latitude longitude w H) as (S & A & R).
    now apply commit_Inv.
  - destruct (isSome (watchCleanup w)); [| exact H].
    destruct (quiet_ready (onPositionError message) w) as (S & A & R);
      [intro; repeat split | exact H |].
    now apply commit_Inv.
  - destruct (prompting (env w)); [| exact H]. now apply permission_Inv.
  - destruct (handleMapClick_ready la lo w H) as (S & A & R).
    now apply commit_Inv.
  - destruct (resetVisible (st w)); [| exact H].
    destruct (resetDestination_ready w H) as (S & A & R).
    now apply commit_Inv.
  - destruct (quiet_ready toggleNotifications w) as (S & A & R);
      [intro; repeat split | exact H |].
    now apply commit_Inv.
  - destruct (existsb (Z.eqb km) distanceOptions); [| exact H].
    destruct (handleDistanceChange_ready km w H) as (S & A & R).
    now apply commit_Inv.
  - destruct (imUpVisible (st w)); [| exact H].
    destruct (quiet_ready (imUp now) w) as (S & A & R);
      [intro; repeat split | exact H |].
    now apply commit_Inv.
  - destruct (findInterval h (env w)) as [i|]; [| exact H].
    destruct (due i <=? now); [| exact H].
    destruct (runCallback_ready now (callback i) h w H) as (S & A & R).
    now apply commit_Inv.
  - now apply unmount_Inv.
Qed.

Theorem reachable_Inv w : Reachable w -> Inv w.
Proof.
  induction 1 as [now geo notif p Hn | now ev w _ IH Hn].
  - now apply mount_Inv.
  - now apply step_Inv.
Qed.

(** *** When a render notifies *)

(** The test of effect 3 (lines 209-214) on the values of a render. *)
Definition notifyDue (now : Z) (r : State) : bool :=
  match userPosition r, destinationPosition r with
  | Some up, Some dp =>
      notificationsEnabled r
      && Qle_bool (computeDistance up dp) (inject_Z (selectedDistance r * 1000))
      && (now - lastNotificationTime r >=? 30000)
  | _, _ => false
  end.

(** What the browser has shown once [sendNotification] ran. *)
Definition shownAfter (now km : Z) (b : Browser) : list Notification :=
  shown (sendNotification now km b).

Lemma distanceEffect_fires now r w :
  (lastNotificationTime (st (distanceEffect now r w)),
   shown (env (distanceEffect now r w)))
  = if notifyDue now r
    then (now, shownAfter now (selectedDistance r) (env w))
    else (lastNotificationTime (st w), shown (env w)).
Proof.
  unfold distanceEffect, notifyDue, computeDistance, shownAfter.
  destruct (userPosition r) as [up|]; [| reflexivity].
  destruct (destinationPosition r) as [dp|]; [| reflexivity].
  cbv zeta.
  destruct (Qle_bool _ _); rewrite ?andb_false_r; cbn; [| reflexivity].
  destruct (notificationsEnabled r); cbn; [| reflexivity].
  destruct (now - lastNotificationTime r >=? 30000); reflexivity.
Qed.

Lemma shownAfter_ext now km b b' :
  hasNotification b' = hasNotification b -> permission b' = permission b ->
  shown b' = shown b -> shownAfter now km b' = shownAfter now km b.
Proof.
  unfold shownAfter, sendNotification. intros -> -> E.
  destruct (hasNotification b && isGranted (permission b)); cbn; congruence.
Qed.

Lemma pass_fires now w :
  (lastNotificationTime (st (pass now w)), shown (env (pass now w)))
  = if distanceDepsChanged (rendered w) (st w) && notifyDue now (st w)
    then (now, shownAfter now (selectedDistance (st w)) (env w))
    else (lastNotificationTime (st w), shown (env w)).
Proof.
  rewrite pass_when. cbn zeta.
  set (r := st w). set (d := rendered w).
  set (w2 := when (countdownDepsChanged d r) countdownCleanupRun
               (when (intervalDepsChanged d r) intervalCleanupRun w)).
  set (w3 := when (distanceDepsChanged d r) (distanceEffect now r) w2).
  assert (P2 : proximityOf w2 = proximityOf w).
  { unfold w2.
    rewrite (when_keeps proximityOf) by apply countdownCleanupRun_proximity.
    now rewrite (when_keeps proximityOf) by apply intervalCleanupRun_proximity. }
  assert (F2 : frameOf w2 = frameOf w).
  { unfold w2.
    rewrite (when_keeps frameOf) by apply countdownCleanupRun_frame.
    now rewrite (when_keeps frameOf) by apply intervalCleanupRun_frame. }
  assert (P5 : proximityOf
                 (when (countdownDepsChanged d r) (countdownEffect now r)
                    (when (intervalDepsChanged d r) (intervalEffect now r) w3))
               = proximityOf w3).
  { rewrite (when_keeps proximityOf) by apply countdownEffect_proximity.
    now rewrite (when_keeps proximityOf) by apply intervalEffect_proximity. }
  change (st (withRendered r ?x)) with (st x).
  change (env (withRendered r ?x)) with (env x).
  unfold proximityOf in P5, P2. unfold frameOf in F2.
  injection P5 as _ _ L S. rewrite L, S.
  injection P2 as _ _ L2 S2.
  unfold w3, when.
  destruct (distanceDepsChanged d r); cbn [andb].
  - cbv iota. rewrite distanceEffect_fires.
    destruct (notifyDue now r); [| unfold r; congruence].
    f_equal. apply shownAfter_ext; congruence.
  - cbv iota. unfold r. congruence.
Qed.

Lemma notifyDue_inputs now s s' :
  userPosition s' = userPosition s ->
  destinationPosition s' = destinationPosition s ->
  selectedDistance s' = selectedDistance s ->
  notificationsEnabled s' = notificationsEnabled s ->
  lastNotificationTime s' = lastNotificationTime s ->
  notifyDue now s' = notifyDue now s.
Proof. unfold notifyDue. intros -> -> -> -> ->. reflexivity. Qed.

Lemma notifyDue_just_notified now s :
  lastNotificationTime s = now -> notifyDue now s = false.
Proof.
  unfold notifyDue. intros ->.
  destruct (userPosition s), (destinationPosition s); auto.
  replace (now - now >=? 30000) with false by lia.
  now rewrite andb_false_r.
Qed.

Lemma notifyDue_elapsed now s :
  notifyDue now s = true -> 30000 <= now - lastNotificationTime s.
Proof.
  unfold notifyDue. destruct (userPosition s), (destinationPosition s);
    try discriminate.
  intros H. apply andb_prop in H. destruct H as (_ & H). lia.
Qed.

(** A render after which effect 3 is not due again: it ran and notified,
    or no dependency of it moved. *)
Lemma pass_then_quiet now w :
  distanceDepsChanged (rendered (pass now w)) (st (pass now w))
  && notifyDue now (st (pass now w)) = false.
Proof.
  destruct (pass_last now w) as [L | (L & _)].
  - now rewrite (pass_deps_stable now w L).
  - rewrite (notifyDue_just_notified _ _ L). apply andb_false_r.
Qed.

(** The notifications of an event are those of its first render. *)
Lemma commit_fires now w :
  (lastNotificationTime (st (commit now w)), shown (env (commit now w)))
  = if distanceDepsChanged (rendered w) (st w) && notifyDue now (st w)
    then (now, shownAfter now (selectedDistance (st w)) (env w))
    else (lastNotificationTime (st w), shown (env w)).
Proof.
  unfold commit.
  rewrite (pass_fires now (pass now (pass now w))), pass_then_quiet.
  rewrite (pass_fires now (pass now w)), pass_then_quiet.
  apply pass_fires.
Qed.

Lemma commit_notifies now w :
  let due := distanceDepsChanged (rendered w) (st w) && notifyDue now (st w) in
  lastNotificationTime (st (commit now w))
  = (if due then now else lastNotificationTime (st w))
  /\ shown (env (commit now w))
     = (if due then shownAfter now (selectedDistance (st w)) (env w)
        else shown (env w)).
Proof.
  cbv zeta. pose proof (commit_fires now w) as F.
  destruct (distanceDepsChanged (rendered w) (st w) && notifyDue now (st w));
    apply pair_equal_spec in F; exact F.
Qed.

(** Without a destination a render leaves distance, near flag and the time
    of the last notification alone. *)
Lemma pass_absent now w :
  destinationPosition (st w) = None ->
  distanceMeters (st (pass now w)) = distanceMeters (st w)
  /\ isNearDestination (st (pass now w)) = isNearDestination (st w)
  /\ lastNotificationTime (st (pass now w)) = lastNotificationTime (st w).
Proof.
  intros D. rewrite pass_when. cbn zeta.
  set (r := st w). set (d := rendered w).
  set (w2 := when (countdownDepsChanged d r) countdownCleanupRun
               (when (intervalDepsChanged d r) intervalCleanupRun w)).
  assert (P : proximityOf
                (when (countdownDepsChanged d r) (countdownEffect now r)
                   (when (intervalDepsChanged d r) (intervalEffect now r)
                      (when (distanceDepsChanged d r) (distanceEffect now r) w2)))
              = proximityOf w).
  { rewrite (when_keeps proximityOf) by apply countdownEffect_proximity.
    rewrite (when_keeps proximityOf) by apply intervalEffect_proximity.
    rewrite (when_keeps proximityOf).
    - unfold w2.
      rewrite (when_keeps proximityOf) by apply countdownCleanupRun_proximity.
      now rewrite (when_keeps proximityOf) by apply intervalCleanupRun_proximity.
    - intros w'. unfold distanceEffect. fold r in D. rewrite D.
      destruct (userPosition r); reflexivity. }
  unfold proximityOf in P. inversion P. cbn. auto.
Qed.

Lemma commit_frame now w :
  let w' := commit now w in
  userPosition (st w') = userPosition (st w)
  /\ destinationPosition (st w') = destinationPosition (st w)
  /\ selectedDistance (st w') = selectedDistance (st w)
  /\ notificationsEnabled (st w') = notificationsEnabled (st w)
  /\ geoError (st w') = geoError (st w)
  /\ mounted w' = mounted w
  /\ watchCleanup w' = watchCleanup w
  /\ watches (env w') = watches (env w)
  /\ permission (env w') = permission (env w)
  /\ hasNotification (env w') = hasNotification (env w).
Proof.
  cbn zeta. unfold commit.
  destruct (pass_frame now w) as (A1 & A2 & A3 & A4 & A5 & A6 & A7 & A8 & _ & A9 & A10 & _).
  destruct (pass_frame now (pass now w))
    as (B1 & B2 & B3 & B4 & B5 & B6 & B7 & B8 & _ & B9 & B10 & _).
  destruct (pass_frame now (pass now (pass now w)))
    as (C1 & C2 & C3 & C4 & C5 & C6 & C7 & C8 & _ & C9 & C10 & _).
  repeat split; congruence.
Qed.

Lemma commit_absent now w :
  destinationPosition (st w) = None ->
  distanceMeters (st (commit now w)) = distanceMeters (st w)
  /\ isNearDestination (st (commit now w)) = isNearDestination (st w)
  /\ lastNotificationTime (st (commit now w)) = lastNotificationTime (st w).
Proof.
  intros D. unfold commit.
  destruct (pass_frame now w) as (_ & D1 & _).
  destruct (pass_frame now (pass now w)) as (_ & D2 & _).
  destruct (pass_absent now w D) as (A1 & A2 & A3).
  destruct (pass_absent now (pass now w)) as (B1 & B2 & B3); [congruence |].
  destruct (pass_absent now (pass now (pass now w))) as (C1 & C2 & C3);
    [congruence |].
  repeat split; congruence.
Qed.

(** ** The claims on the component *)

Arguments commit : simpl never.
Arguments pass : simpl never.

Definition nearFlagOk (s : State) : Prop :=
  isNearDestination s =
  match distanceMeters s with
  | Some d => Qle_bool d (inject_Z (selectedDistance s * 1000))
  | None => false
  end.

Lemma synced_nearFlagOk s : synced s -> nearFlagOk s.
Proof.
  unfold synced, evaluateProximity, nearFlagOk. intros H.
  destruct (userPosition s), (destinationPosition s);
    injection H as -> ->; reflexivity.
Qed.

(** C3.  What the component holds as distance and near flag is what
    [evaluateProximity] returns on the current position, the destination
    and the threshold: no distance and not near when a point is absent,
    otherwise the distance between the two points and whether it is at most
    the threshold in metres.  States are taken between events, once the
    effects of the last event have run; effect 3 itself writes exactly this
    pair when both points are present. *)
Theorem evaluateProximity_refined (w : World) :
  Reachable w ->
  (distanceMeters (st w), isNearDestination (st w))
  = evaluateProximity (userPosition (st w)) (destinationPosition (st w))
      (selectedDistance (st w))
  /\ match userPosition (st w), destinationPosition (st w) with
     | Some c, Some d =>
         distanceMeters (st w) = Some (computeDistance c d)
         /\ isNearDestination (st w)
            = Qle_bool (computeDistance c d)
                (inject_Z (selectedDistance (st w) * 1000))
     | _, _ => distanceMeters (st w) = None /\ isNearDestination (st w) = false
     end.
Proof.
  intros R. destruct (reachable_Inv w R) as (S & _).
  split; [exact S |]. unfold synced, evaluateProximity in S.
  destruct (userPosition (st w)), (destinationPosition (st w));
    inversion S; auto.
Qed.

(** C4.  In every reachable state the near flag is true exactly when there
    is a distance and it is at most the threshold in metres, and every
    event (position update, destination set, threshold change, reset, and
    the others) leads to a state where this holds again. *)
Theorem isNear_invariant (w : World) :
  Reachable w ->
  nearFlagOk (st w)
  /\ forall now ev, 0 <= now -> nearFlagOk (st (step now ev w)).
Proof.
  intros R. split.
  - apply synced_nearFlagOk, (reachable_Inv w R).
  - intros now ev Hn. apply synced_nearFlagOk.
    apply (step_Inv now ev w Hn), (reachable_Inv w R).
Qed.

(** C5.  In every reachable state there is no distance if and only if the
    current position or the destination is absent. *)
Theorem distance_null_iff (w : World) :
  Reachable w ->
  distanceMeters (st w) = None
  <-> userPosition (st w) = None \/ destinationPosition (st w) = None.
Proof.
  intros R. destruct (reachable_Inv w R) as (S & _).
  unfold synced, evaluateProximity in S.
  destruct (userPosition (st w)), (destinationPosition (st w));
    injection S as S1 S2; rewrite S1; intuition congruence.
Qed.

(** The events as handler followed by [commit], when their control is
    there to be used. *)
Lemma step_reset now w :
  mounted w = true -> resetVisible (st w) = true ->
  step now EvReset w = commit now (onState resetDestination w).
Proof. intros M V. unfold step. now rewrite M, V. Qed.

Lemma step_distanceChange now km w :
  mounted w = true -> In km distanceOptions ->
  step now (EvDistanceChange km) w
  = commit now (onState (handleDistanceChange km) w).
Proof.
  intros M K. unfold step. rewrite M. cbn [negb].
  assert (G : existsb (Z.eqb km) distanceOptions = true).
  { apply existsb_exists. exists km. split; [exact K | apply Z.eqb_refl]. }
  now rewrite G.
Qed.

Lemma step_imUp now w :
  mounted w = true -> imUpVisible (st w) = true ->
  step now EvImUp w = commit now (onState (imUp now) w).
Proof. intros M V. unfold step. now rewrite M, V. Qed.

Lemma step_position now la lo w :
  mounted w = true -> isSome (watchCleanup w) = true ->
  step now (EvPosition la lo) w = commit now (onPosition la lo w).
Proof. intros M V. unfold step. now rewrite M, V. Qed.

Lemma onPosition_fields la lo w :
  let w' := onPosition la lo w in
  userPosition (st w') = Some (mkTuple (nextAddr (env w)) la lo)
  /\ destinationPosition (st w') = destinationPosition (st w)
  /\ selectedDistance (st w') = selectedDistance (st w)
  /\ notificationsEnabled (st w') = notificationsEnabled (st w)
  /\ lastNotificationTime (st w') = lastNotificationTime (st w)
  /\ rendered w' = rendered w
  /\ shown (env w') = shown (env w)
  /\ hasNotification (env w') = hasNotification (env w)
  /\ permission (env w') = permission (env w).
Proof. cbn. repeat split. Qed.

(** C7.  [resetDestination] clears the destination, the distance, the near
    flag and the time of the last notification, which is also where a
    snooze is kept, back to their initial values, and leaves the threshold
    and the notification switch as they were; this is still so once the
    effects of the reset have run. *)
Theorem resetDestination_clears (now : Z) (w : World) :
  mounted w = true -> resetVisible (st w) = true ->
  let cleared (s : State) :=
    destinationPosition s = destinationPosition initialState
    /\ distanceMeters s = distanceMeters initialState
    /\ isNearDestination s = isNearDestination initialState
    /\ lastNotificationTime s = lastNotificationTime initialState
    /\ (forall t, 0 <= t -> snoozeActive t s = false)
    /\ selectedDistance s = selectedDistance (st w)
    /\ notificationsEnabled s = notificationsEnabled (st w) in
  cleared (resetDestination (st w)) /\ cleared (st (step now EvReset w)).
Proof.
  intros M V. cbn zeta. split.
  - cbn. repeat split. intros t Ht. unfold snoozeActive. cbn. lia.
  - rewrite (step_reset now w M V).
    destruct (commit_frame now (onState resetDestination w))
      as (_ & D & K & N & _).
    destruct (commit_absent now (onState resetDestination w) eq_refl)
      as (A1 & A2 & A3).
    cbn in D, K, N, A1, A2, A3.
    generalize dependent (commit now (onState resetDestination w)).
    intros wc D K N A1 A2 A3.
    repeat match goal with |- _ /\ _ => split end; try assumption.
    intros t Ht. unfold snoozeActive. rewrite A3. lia.
Qed.

Lemma notifyDue_not_elapsed now s :
  now - lastNotificationTime s < 30000 -> notifyDue now s = false.
Proof.
  intros H. destruct (notifyDue now s) eqn:E; auto.
  apply notifyDue_elapsed in E. lia.
Qed.

Lemma shownAfter_granted now km b :
  hasNotification b = true -> permission b = PermGranted ->
  shownAfter now km b = mkNotification now km :: shown b.
Proof. unfold shownAfter, sendNotification. intros -> ->. reflexivity. Qed.

(** A threshold change that brings the user inside the threshold notifies
    in the same event. *)
Lemma threshold_change_notifies (now km : Z) (w : World) (up dp : Tuple) :
  Reachable w -> mounted w = true ->
  In km distanceOptions -> km <> selectedDistance (st w) ->
  notificationsEnabled (st w) = true ->
  userPosition (st w) = Some up -> destinationPosition (st w) = Some dp ->
  Qle_bool (computeDistance up dp) (inject_Z (km * 1000)) = true ->
  30000 <= now ->
  let w' := step now (EvDistanceChange km) w in
  selectedDistance (st w') = km
  /\ isNearDestination (st w') = true
  /\ lastNotificationTime (st w') = now
  /\ shown (env w') = shownAfter now km (env w).
Proof.
  intros R M K Kn En U D Near Hn. cbn zeta.
  pose proof (step_Inv now (EvDistanceChange km) w ltac:(lia) (reachable_Inv w R))
    as (S' & _).
  destruct (reachable_Inv w R) as (_ & E & _).
  rewrite (step_distanceChange now km w M K) in *.
  set (w1 := onState (handleDistanceChange km) w) in *.
  assert (C : distanceDepsChanged (rendered w1) (st w1) && notifyDue now (st w1)
              = true).
  { apply andb_true_intro. split.
    - unfold distanceDepsChanged, w1. cbn. rewrite E.
      assert (X : (selectedDistance (st w) =? km) = false)
        by (apply Z.eqb_neq; congruence).
      rewrite X. cbn. now rewrite !orb_true_r.
    - unfold notifyDue, w1. cbn. rewrite U, D, En, Near. cbn. lia. }
  destruct (commit_frame now w1) as (F1 & F2 & F3 & _).
  destruct (commit_notifies now w1) as (L & Sh). rewrite C in L, Sh.
  subst w1. cbn in F1, F2, F3, Sh.
  rewrite U in F1. rewrite D in F2. clear C.
  generalize dependent (commit now (onState (handleDistanceChange km) w)).
  intros wc S' F1 F2 F3 L Sh.
  split; [exact F3 |]. split; [| split; [exact L | exact Sh]].
  unfold synced, evaluateProximity in S'. rewrite F1, F2, F3 in S'.
  cbv zeta in S'. rewrite Near in S'.
  apply pair_equal_spec in S'. apply S'.
Qed.

(** C8.  For every state and every value, [handleDistanceChange] sets the
    threshold to the value and the time of the last notification back to
    its initial value, and changes nothing else; the test of effect 3 on
    the state it leaves succeeds, at any time of day, exactly when
    notifications are on and the user is within the new threshold; and in
    a run the notification is then sent in the same event. *)
Theorem setThreshold_rearms (km : Z) (s : State) :
  let s1 := handleDistanceChange km s in
  (selectedDistance s1 = km
   /\ lastNotificationTime s1 = lastNotificationTime initialState
   /\ userPosition s1 = userPosition s
   /\ destinationPosition s1 = destinationPosition s
   /\ distanceMeters s1 = distanceMeters s
   /\ isNearDestination s1 = isNearDestination s
   /\ notificationsEnabled s1 = notificationsEnabled s
   /\ notificationInterval s1 = notificationInterval s
   /\ countdownSeconds s1 = countdownSeconds s
   /\ geoError s1 = geoError s)
  /\ (forall now, 30000 <= now ->
      notifyDue now s1
      = match userPosition s, destinationPosition s with
        | Some up, Some dp =>
            notificationsEnabled s
            && Qle_bool (computeDistance up dp) (inject_Z (km * 1000))
        | _, _ => false
        end)
  /\ (forall now w, mounted w = true -> In km distanceOptions ->
      selectedDistance (st (step now (EvDistanceChange km) w)) = km)
  /\ (forall now w up dp,
      st w = s -> Reachable w -> mounted w = true ->
      In km distanceOptions -> km <> selectedDistance s ->
      notificationsEnabled s = true ->
      userPosition s = Some up -> destinationPosition s = Some dp ->
      Qle_bool (computeDistance up dp) (inject_Z (km * 1000)) = true ->
      30000 <= now ->
      let w' := step now (EvDistanceChange km) w in
      selectedDistance (st w') = km
      /\ isNearDestination (st w') = true
      /\ lastNotificationTime (st w') = now
      /\ shown (env w') = shownAfter now km (env w)).
Proof.
  cbn zeta. split; [| split; [| split]].
  - cbn. repeat split.
  - intros now Hn. unfold notifyDue. cbn.
    destruct (userPosition s), (destinationPosition s); auto.
    replace (now - 0 >=? 30000) with true by lia. apply andb_true_r.
  - intros now w M K. rewrite (step_distanceChange now km w M K).
    destruct (commit_frame now (onState (handleDistanceChange km) w))
      as (_ & _ & F & _). exact F.
  - intros now w up dp <- R M K Kn En U D Near Hn.
    exact (threshold_change_notifies now km w up dp R M K Kn En U D Near Hn).
Qed.

(** C9, as the code has it.  Clearing the destination releases every
    interval timer and keeps the position subscription, which lives as long
    as the component; unmounting releases the timers and the subscription. *)
Theorem timers_released (now : Z) (w : World) :
  Reachable w -> 0 <= now -> mounted w = true ->
  (resetVisible (st w) = true ->
   intervals (env (step now EvReset w)) = []
   /\ watches (env (step now EvReset w)) = watches (env w))
  /\ intervals (env (step now EvUnmount w)) = []
  /\ watches (env (step now EvUnmount w)) = [].
Proof.
  intros R Hn M. pose proof (reachable_Inv w R) as I. split.
  - intros V.
    pose proof (step_Inv now EvReset w Hn I) as (_ & E' & _ & (O & II & CI & _)).
    rewrite (step_reset now w M V) in *.
    destruct (commit_frame now (onState resetDestination w))
      as (_ & D & _ & _ & _ & _ & _ & W & _).
    destruct (commit_absent now (onState resetDestination w) eq_refl)
      as (_ & _ & L).
    cbn in D, W, L.
    generalize dependent (commit now (onState resetDestination w)).
    intros wc E' O II CI D W L.
    split; [| exact W].
    assert (X : intervalCleanup wc = None).
    { apply II. right. rewrite E', D. reflexivity. }
    assert (Y : countdownCleanup wc = None).
    { apply CI. rewrite E', L. lia. }
    destruct (intervals (env wc)) as [| i l] eqn:Z; auto.
    destruct (O i) as [A | A]; [rewrite Z; now left | congruence | congruence].
  - unfold step. rewrite M. cbn [negb].
    destruct I as (_ & _ & _ & (O & _ & _ & W)).
    now apply unmount_released.
Qed.


(** *** The interval callback *)

(** When the 30 second interval fires with both points inside the
    threshold, a notification goes out and the time of the last one
    becomes [now], whatever that time was before. *)
Lemma timer_notifies now h i up dp km w :
  mounted w = true ->
  findInterval h (env w) = Some i ->
  callback i = NotifyTick (Some up) (Some dp) km ->
  due i <= now ->
  Qle_bool (computeDistance up dp) (inject_Z (km * 1000)) = true ->
  let w' := step now (EvTimer h) w in
  lastNotificationTime (st w') = now
  /\ shown (env w') = shownAfter now km (env w).
Proof.
  intros M F C Du Near. cbn zeta.
  assert (E : step now (EvTimer h) w
              = commit now (runCallback now (callback i) (onEnv (reschedule h) w))).
  { unfold step. rewrite M, F. cbn [negb].
    destruct (due i <=? now) eqn:X; [reflexivity | lia]. }
  rewrite E, C. unfold runCallback. unfold computeDistance in Near.
  rewrite Near.
  set (wr := onState (setLastNotificationTime now)
               (onEnv (sendNotification now km) (onEnv (reschedule h) w))).
  assert (Q : notifyDue now (st wr) = false)
    by (apply notifyDue_just_notified; reflexivity).
  destruct (commit_notifies now wr) as (L & S).
  rewrite Q, andb_false_r in L, S. split; [exact L |].
  rewrite S. unfold wr. cbn. apply shownAfter_ext; reflexivity.
Qed.

(** ** The scheduled timers along a run *)

(** The closure effect 4 hands to [setInterval] in a render with the
    values [x]. *)
Definition notifyClosure (x : State) : Callback :=
  NotifyTick (userPosition x) (destinationPosition x) (selectedDistance x).

(** Every scheduled interval has a handle the browser gave out, and is
    either the 30 s interval of effect 4, with the values of the render
    [x] in its closure, or the 1 s countdown of effect 5 for the time of
    [x].  As in [ownedDuring], [a] and [b] say which cleanup has run. *)
Definition typedDuring (a b : bool) (x : State) (w : World) : Prop :=
  forall i, In i (intervals (env w)) ->
    (handle i < nextHandle (env w))%nat
    /\ ((a = false /\ intervalCleanup w = Some (handle i)
         /\ callback i = notifyClosure x /\ period i = 30000)
        \/ (b = false /\ countdownCleanup w = Some (handle i)
            /\ callback i = CountdownTick (lastNotificationTime x)
            /\ period i = 1000)).

Definition cleanupsBelow (w : World) : Prop :=
  (forall h, intervalCleanup w = Some h -> (h < nextHandle (env w))%nat)
  /\ (forall h, countdownCleanup w = Some h -> (h < nextHandle (env w))%nat)
  /\ (forall h, intervalCleanup w = Some h -> countdownCleanup w <> Some h).

(** The 30 s interval is scheduled whenever the render [x] has
    notifications on and a destination. *)
Definition busyAt (x : State) (w : World) : Prop :=
  notificationsEnabled x = true -> destinationPosition x <> None ->
  exists i, In i (intervals (env w)) /\ intervalCleanup w = Some (handle i).

(** Tuples the dependency comparison takes for the same are the same. *)
Definition refsAgree (w : World) : Prop :=
  (sameRef (userPosition (rendered w)) (userPosition (st w)) = true ->
   userPosition (rendered w) = userPosition (st w))
  /\ (sameRef (destinationPosition (rendered w)) (destinationPosition (st w)) = true ->
      destinationPosition (rendered w) = destinationPosition (st w)).

Definition timersDuring (a b : bool) (x : State) (w : World) : Prop :=
  typedDuring a b x w /\ cleanupsBelow w /\ (a = false -> busyAt x w).

Definition timersOk (w : World) : Prop :=
  timersDuring false false (rendered w) w.

Lemma intervalCleanupRun_timers b x w :
  timersDuring false b x w -> timersDuring true b x (intervalCleanupRun w).
Proof.
  unfold timersDuring, typedDuring, cleanupsBelow, intervalCleanupRun.
  intros (T & (B1 & B2 & B3) & _).
  destruct (intervalCleanup w) as [h|] eqn:E; cbn.
  - split; [| split; [| discriminate]].
    + intros i Hi. apply filter_In in Hi. destruct Hi as (Hi & Hn).
      destruct (T i Hi) as (Hl & [(_ & A & _) | R]); split; auto.
      inversion A; subst. rewrite Nat.eqb_refl in Hn. discriminate.
    + rewrite E. auto.
  - split; [| split; [| discriminate]].
    + intros i Hi. destruct (T i Hi) as (Hl & [(_ & A & _) | R]); split; auto.
      discriminate.
    + rewrite E. auto.
Qed.

Lemma countdownCleanupRun_timers a x w :
  timersDuring a false x w -> timersDuring a true x (countdownCleanupRun w).
Proof.
  unfold timersDuring, typedDuring, cleanupsBelow, busyAt, countdownCleanupRun.
  intros (T & (B1 & B2 & B3) & Bu).
  destruct (countdownCleanup w) as [h|] eqn:E; cbn.
  - split; [| split].
    + intros i Hi. apply filter_In in Hi. destruct Hi as (Hi & Hn).
      destruct (T i Hi) as (Hl & [L | (_ & A & _)]); split; auto.
      inversion A; subst. rewrite Nat.eqb_refl in Hn. discriminate.
    + rewrite E. auto.
    + intros Ha En De. destruct (Bu Ha En De) as (i & Hi & Hc).
      exists i. split; [| exact Hc]. apply filter_In. split; [exact Hi |].
      apply negb_true_iff, Nat.eqb_neq. intros X. subst h.
      apply (B3 _ Hc). reflexivity.
  - split; [| split].
    + intros i Hi. destruct (T i Hi) as (Hl & [L | (_ & A & _)]); split; auto.
      discriminate.
    + rewrite E. auto.
    + exact Bu.
Qed.

Lemma distanceEffect_timers a b x now r w :
  timersDuring a b x w -> timersDuring a b x (distanceEffect now r w).
Proof.
  assert (E : intervals (env (distanceEffect now r w)) = intervals (env w)
              /\ nextHandle (env (distanceEffect now r w)) = nextHandle (env w)
              /\ intervalCleanup (distanceEffect now r w) = intervalCleanup w
              /\ countdownCleanup (distanceEffect now r w) = countdownCleanup w).
  { unfold_effects. split_matches; cbn; auto. }
  destruct E as (E1 & E2 & E3 & E4).
  unfold timersDuring, typedDuring, cleanupsBelow, busyAt.
  rewrite E1, E2, E3, E4. auto.
Qed.

Lemma intervalEffect_timers b now r w :
  timersDuring true b r w -> timersDuring false b r (intervalEffect now r w).
Proof.
  unfold timersDuring, typedDuring, cleanupsBelow, busyAt, intervalEffect.
  intros (T & (B1 & B2 & B3) & _).
  destruct (negb (notificationsEnabled r) || negb (isSome (destinationPosition r)))
    eqn:G.
  - assert (X : forall i,
               In i (intervals (env match notificationInterval r with
                                    | Some h => onState (setNotificationInterval None)
                                                  (onEnv (clearInterval h) w)
                                    | None => w
                                    end)) -> In i (intervals (env w))).
    { destruct (notificationInterval r); cbn; auto.
      intros i Hi. apply filter_In in Hi. apply Hi. }
    assert (Y : nextHandle (env match notificationInterval r with
                                | Some h => onState (setNotificationInterval None)
                                              (onEnv (clearInterval h) w)
                                | None => w
                                end) = nextHandle (env w)
                /\ countdownCleanup match notificationInterval r with
                                    | Some h => onState (setNotificationInterval None)
                                                  (onEnv (clearInterval h) w)
                                    | None => w
                                    end = countdownCleanup w).
    { destruct (notificationInterval r); cbn; auto. }
    destruct Y as (Y1 & Y2). cbn. rewrite Y1, Y2.
    split; [| split; [split; [discriminate | split; [exact B2 | discriminate]] |]].
    + intros i Hi. destruct (T i (X i Hi)) as (Hl & [(A & _) | R]); [discriminate |].
      split; auto.
    + intros _ En De. apply orb_true_iff in G. destruct G as [G | G].
      * rewrite En in G. discriminate.
      * destruct (destinationPosition r); [discriminate | congruence].
  - cbn. split; [| split; [split; [| split] |]].
    + intros i Hi. apply in_app_iff in Hi. destruct Hi as [Hi | [Hi | []]].
      * destruct (T i Hi) as (Hl & [(A & _) | R]); [discriminate |].
        split; [lia | auto].
      * subst i. cbn. split; [lia |]. left. repeat split.
    + intros h H. inversion H. lia.
    + intros h H. specialize (B2 h H). lia.
    + intros h H C. inversion H; subst. specialize (B2 _ C). lia.
    + intros _ _ _. eexists. split; [apply in_app_iff; right; left; reflexivity |].
      reflexivity.
Qed.

Lemma countdownEffect_timers a now r w :
  timersDuring a true r w -> timersDuring a false r (countdownEffect now r w).
Proof.
  unfold timersDuring, typedDuring, cleanupsBelow, busyAt, countdownEffect.
  intros (T & (B1 & B2 & B3) & Bu).
  destruct (lastNotificationTime r >? now) eqn:G; cbn.
  - split; [| split; [split; [| split] |]].
    + intros i Hi. apply in_app_iff in Hi. destruct Hi as [Hi | [Hi | []]].
      * destruct (T i Hi) as (Hl & [L | (A & _)]); [| discriminate].
        split; [lia | auto].
      * subst i. cbn. split; [lia |]. right. repeat split.
    + intros h H. specialize (B1 h H). lia.
    + intros h H. inversion H. lia.
    + intros h H C. inversion C; subst. specialize (B1 _ H). lia.
    + intros Ha En De. destruct (Bu Ha En De) as (i & Hi & Hc).
      exists i. split; [apply in_app_iff; now left | exact Hc].
  - split; [| split; [split; [exact B1 | split; discriminate] | exact Bu]].
    intros i Hi. destruct (T i Hi) as (Hl & [L | (A & _)]); [| discriminate].
    split; auto.
Qed.

Lemma notifyClosure_same d r :
  intervalDepsChanged d r = false ->
  (sameRef (userPosition d) (userPosition r) = true -> userPosition d = userPosition r) ->
  (sameRef (destinationPosition d) (destinationPosition r) = true ->
   destinationPosition d = destinationPosition r) ->
  notifyClosure d = notifyClosure r
  /\ notificationsEnabled d = notificationsEnabled r
  /\ destinationPosition d = destinationPosition r.
Proof.
  intros C U D. apply intervalDeps_same in C. destruct C as (C1 & C2 & C3 & C4).
  unfold notifyClosure. rewrite (U C3), (D C2), C4. auto.
Qed.

(** Moving the invariant from the previous render to the current one:
    what was not cleaned up belongs to an effect whose dependencies did not
    change. *)
Lemma timers_rebase (c4 c5 : bool) d r w :
  timersDuring c4 c5 d w ->
  (c4 = false -> notifyClosure d = notifyClosure r
                 /\ notificationsEnabled d = notificationsEnabled r
                 /\ destinationPosition d = destinationPosition r) ->
  (c5 = false -> lastNotificationTime d = lastNotificationTime r) ->
  timersDuring c4 c5 r w.
Proof.
  unfold timersDuring, typedDuring, busyAt. intros (T & B & Bu) H4 H5.
  split; [| split; [exact B |]].
  - intros i Hi. destruct (T i Hi) as (Hl & [(A1 & A2 & A3 & A4) | (A1 & A2 & A3 & A4)]);
      split; auto.
    + left. destruct (H4 A1) as (X & _). rewrite <- X. auto.
    + right. rewrite <- (H5 A1). auto.
  - intros A En De. destruct (H4 A) as (_ & X & Y).
    apply (Bu A); congruence.
Qed.

Lemma pass_timersOk now w :
  refsAgree w -> timersOk w -> timersOk (pass now w).
Proof.
  unfold timersOk. intros (RU & RD) H. rewrite pass_when. cbn zeta.
  set (r := st w) in *. set (d := rendered w) in *.
  set (c4 := intervalDepsChanged d r). set (c5 := countdownDepsChanged d r).
  set (c3 := distanceDepsChanged d r).
  assert (H1 : timersDuring c4 false d (when c4 intervalCleanupRun w)).
  { unfold when. destruct c4; auto using intervalCleanupRun_timers. }
  assert (H2 : timersDuring c4 c5 d
                 (when c5 countdownCleanupRun (when c4 intervalCleanupRun w))).
  { unfold when at 1. destruct c5; auto using countdownCleanupRun_timers. }
  set (w2 := when c5 countdownCleanupRun (when c4 intervalCleanupRun w)) in *.
  assert (H2' : timersDuring c4 c5 r w2).
  { apply (timers_rebase c4 c5 d r w2 H2).
    - intros C. apply notifyClosure_same; assumption.
    - intros C. now apply countdownDeps_same. }
  assert (H3 : timersDuring c4 c5 r (when c3 (distanceEffect now r) w2)).
  { unfold when at 1. destruct c3; auto using distanceEffect_timers. }
  set (w3 := when c3 (distanceEffect now r) w2) in *.
  assert (H4 : timersDuring false c5 r (when c4 (intervalEffect now r) w3)).
  { unfold when at 1. destruct c4; auto using intervalEffect_timers. }
  set (w4 := when c4 (intervalEffect now r) w3) in *.
  assert (H5 : timersDuring false false r (when c5 (countdownEffect now r) w4)).
  { unfold when at 1. destruct c5; auto using countdownEffect_timers. }
  exact H5.
Qed.

Lemma pass_refsAgree now w : refsAgree (pass now w).
Proof.
  destruct (pass_frame now w) as (U & D & _ & _ & _ & _ & _ & _ & _ & _ & _ & R).
  unfold refsAgree. rewrite R, U, D. auto.
Qed.

Lemma commit_timersOk now w :
  refsAgree w -> timersOk w -> timersOk (commit now w).
Proof.
  intros A T. unfold commit.
  apply pass_timersOk; [apply pass_refsAgree |].
  apply pass_timersOk; [apply pass_refsAgree |].
  now apply pass_timersOk.
Qed.

(** The state cell [notificationInterval] holds the handle effect 4 will
    clear. *)
Definition mirror (w : World) : Prop :=
  notificationInterval (st w) = intervalCleanup w.

(** Without a destination the time of the last notification is at its
    initial value. *)
Definition noDest (s : State) : Prop :=
  destinationPosition s = None -> lastNotificationTime s = 0.

Definition timersInv (w : World) : Prop :=
  refsAgree w /\ timersOk w /\ mirror w /\ noDest (st w)
  /\ 0 <= countdownSeconds (st w)
  /\ In (selectedDistance (st w)) distanceOptions.

(** The second invariant of a run; it speaks of the mounted component. *)
Definition Inv2 (w : World) : Prop := mounted w = true -> timersInv w.

Lemma effects_notificationInterval now r w :
  notificationInterval (st (intervalCleanupRun w)) = notificationInterval (st w)
  /\ notificationInterval (st (countdownCleanupRun w)) = notificationInterval (st w)
  /\ notificationInterval (st (distanceEffect now r w)) = notificationInterval (st w)
  /\ notificationInterval (st (countdownEffect now r w)) = notificationInterval (st w).
Proof. unfold_effects. repeat split; split_matches; cbn; congruence. Qed.

Lemma intervalEffect_mirror now r w :
  notificationInterval (st w) = notificationInterval r ->
  mirror (intervalEffect now r w)
  \/ (notificationInterval r = None /\ intervalCleanup (intervalEffect now r w) = None
      /\ notificationInterval (st (intervalEffect now r w)) = None).
Proof.
  unfold mirror, intervalEffect. intros E.
  destruct (negb (notificationsEnabled r) || negb (isSome (destinationPosition r))).
  - destruct (notificationInterval r) eqn:N; cbn; [now left |].
    right. repeat split. congruence.
  - cbn. now left.
Qed.

Lemma pass_mirror now w : mirror w -> mirror (pass now w).
Proof.
  unfold mirror. intros H. rewrite pass_when. cbn zeta.
  set (r := st w). set (d := rendered w).
  change (st (withRendered r ?x)) with (st x).
  change (intervalCleanup (withRendered r ?x)) with (intervalCleanup x).
  rewrite (when_keeps intervalCleanup) by (intro; apply (intervalCleanup_kept now r)).
  rewrite (when_keeps (fun w => notificationInterval (st w)))
    by (intro; apply (effects_notificationInterval now r)).
  set (w3 := when (distanceDepsChanged d r) (distanceEffect now r)
               (when (countdownDepsChanged d r) countdownCleanupRun
                  (when (intervalDepsChanged d r) intervalCleanupRun w))).
  assert (N3 : notificationInterval (st w3) = notificationInterval r).
  { unfold w3.
    rewrite (when_keeps (fun w => notificationInterval (st w)))
      by (intro; apply (effects_notificationInterval now r)).
    now rewrite cleanups_st. }
  assert (C3 : intervalCleanup w3 = intervalCleanup w).
  { unfold w3.
    repeat rewrite (when_keeps intervalCleanup)
      by (intro; apply (intervalCleanup_kept now r)).
    reflexivity. }
  unfold when at 1 2. destruct (intervalDepsChanged d r).
  - destruct (intervalEffect_mirror now r w3 N3) as [M | (_ & A & B)].
    + exact M.
    + congruence.
  - unfold r in N3. congruence.
Qed.

Lemma pass_noDest now w : noDest (st w) -> noDest (st (pass now w)).
Proof.
  unfold noDest. intros H D.
  destruct (pass_frame now w) as (_ & D' & _).
  rewrite D' in D. destruct (pass_absent now w D) as (_ & _ & L).
  rewrite L. auto.
Qed.

Lemma effects_countdownSeconds now r w :
  countdownSeconds (st (intervalCleanupRun w)) = countdownSeconds (st w)
  /\ countdownSeconds (st (countdownCleanupRun w)) = countdownSeconds (st w)
  /\ countdownSeconds (st (distanceEffect now r w)) = countdownSeconds (st w)
  /\ countdownSeconds (st (intervalEffect now r w)) = countdownSeconds (st w).
Proof. unfold_effects. repeat split; split_matches; cbn; congruence. Qed.

Lemma pass_countdownSeconds now w :
  countdownSeconds (st (pass now w)) = countdownSeconds (st w)
  \/ countdownSeconds (st (pass now w)) = 0.
Proof.
  rewrite pass_when. cbn zeta.
  set (r := st w). set (d := rendered w).
  change (st (withRendered r ?x)) with (st x).
  set (w4 := when (intervalDepsChanged d r) (intervalEffect now r)
               (when (distanceDepsChanged d r) (distanceEffect now r)
                  (when (countdownDepsChanged d r) countdownCleanupRun
                     (when (intervalDepsChanged d r) intervalCleanupRun w)))).
  assert (X : countdownSeconds (st w4) = countdownSeconds (st w)).
  { unfold w4.
    repeat rewrite (when_keeps (fun w => countdownSeconds (st w)))
      by (intro; apply (effects_countdownSeconds now r)).
    reflexivity. }
  clearbody w4. unfold when. destruct (countdownDepsChanged d r); [| now left].
  unfold countdownEffect.
  destruct (lastNotificationTime r >? now); cbn; [now left | now right].
Qed.

Lemma pass_timersInv now w : timersInv w -> timersInv (pass now w).
Proof.
  intros (A & T & M & N & C & K).
  destruct (pass_frame now w) as (_ & _ & K' & _).
  split; [apply pass_refsAgree |].
  split; [now apply pass_timersOk |].
  split; [now apply pass_mirror |].
  split; [now apply pass_noDest |].
  split; [| rewrite K'; exact K].
  destruct (pass_countdownSeconds now w) as [E | E]; rewrite E; lia.
Qed.

Lemma commit_timersInv now w : timersInv w -> timersInv (commit now w).
Proof.
  intros H. unfold commit. now do 3 apply pass_timersInv.
Qed.

Lemma sameRef_to_None a : sameRef a None = true -> a = None.
Proof. destruct a; cbn; congruence. Qed.

Lemma onState_timersInv (f : State -> State) w :
  rendered w = st w -> timersInv w ->
  userPosition (f (st w)) = userPosition (st w) ->
  (destinationPosition (f (st w)) = destinationPosition (st w)
   \/ destinationPosition (f (st w)) = None) ->
  notificationInterval (f (st w)) = notificationInterval (st w) ->
  noDest (f (st w)) -> 0 <= countdownSeconds (f (st w)) ->
  In (selectedDistance (f (st w))) distanceOptions ->
  timersInv (onState f w).
Proof.
  intros E (A & T & M & N & C & K) U D NI N' C' K'.
  split; [| split; [exact T | split; [| split; [exact N' | split; [exact C' | exact K']]]]].
  - unfold refsAgree. cbn. rewrite E, U. split; [auto |].
    destruct D as [D | D]; rewrite D; auto.
    intros X. now apply sameRef_to_None.
  - unfold mirror in *. cbn. congruence.
Qed.

Lemma onPosition_timersInv la lo w :
  Inv w -> timersInv w -> timersInv (onPosition la lo w).
Proof.
  intros (_ & E & (_ & _ & A3 & _) & _) (A & T & M & N & C & K).
  split; [| split; [exact T | split; [exact M | split; [exact N | split; [exact C | exact K]]]]].
  unfold refsAgree. cbn. rewrite (sameRef_fresh _ _ la lo A3).
  split; [discriminate |]. rewrite E. auto.
Qed.

Lemma handleMapClick_timersInv la lo w :
  Inv w -> timersInv w -> timersInv (handleMapClick la lo w).
Proof.
  intros (_ & E & (_ & _ & _ & A4) & _) (A & T & M & N & C & K).
  split; [| split; [exact T | split; [exact M | split; [| split; [exact C | exact K]]]]].
  - unfold refsAgree. cbn. rewrite (sameRef_fresh _ _ la lo A4).
    split; [| discriminate]. rewrite E. auto.
  - unfold noDest. cbn. discriminate.
Qed.

Lemma findInterval_In h b i : findInterval h b = Some i -> In i (intervals b).
Proof. unfold findInterval. intros H. now apply find_some in H. Qed.

Lemma reschedule_timersOk h w : timersOk w -> timersOk (onEnv (reschedule h) w).
Proof.
  unfold timersOk, timersDuring, typedDuring, cleanupsBelow, busyAt. cbn.
  intros (T & B & Bu). split; [| split; [exact B |]].
  - intros i Hi. apply in_map_iff in Hi. destruct Hi as (j & <- & Hj).
    specialize (T j Hj). destruct (Nat.eqb (handle j) h); exact T.
  - intros X En De. destruct (Bu X En De) as (i & Hi & Hc).
    exists (if Nat.eqb (handle i) h
            then mkInterval (handle i) (period i) (due i + period i) (callback i)
            else i).
    split.
    + apply in_map_iff. exists i. auto.
    + destruct (Nat.eqb (handle i) h); exact Hc.
Qed.

(** The interval that fires holds the current values: its closure is the
    one of the last render, or it is the countdown. *)
Lemma fired_closure h i w :
  rendered w = st w -> timersOk w -> findInterval h (env w) = Some i ->
  (callback i = notifyClosure (st w) /\ intervalCleanup w = Some (handle i))
  \/ callback i = CountdownTick (lastNotificationTime (st w)).
Proof.
  intros E (T & _) F. apply findInterval_In in F.
  destruct (T i F) as (_ & [(_ & A & B & _) | (_ & _ & B & _)]);
    rewrite E in B; auto.
Qed.

Lemma ceilDiv_pos a : (ceilDiv a 1000 >? 0) = true -> 0 <= ceilDiv a 1000.
Proof. lia. Qed.

Lemma runCallback_timersInv now h i w :
  Inv w -> timersInv w -> findInterval h (env w) = Some i ->
  timersInv (runCallback now (callback i) (onEnv (reschedule h) w)).
Proof.
  intros (_ & E & _) I F. pose proof I as (A & T & M & N & C & K).
  pose proof (reschedule_timersOk h w T) as T'.
  assert (I' : timersInv (onEnv (reschedule h) w)).
  { split; [exact A | split; [exact T' | auto]]. }
  destruct (fired_closure h i w E T F) as [(B & _) | B]; rewrite B;
    unfold notifyClosure, runCallback.
  - destruct (userPosition (st w)) as [up|] eqn:U; [| exact I'].
    destruct (destinationPosition (st w)) as [dp|] eqn:D; [| exact I'].
    destruct (Qle_bool _ _); [| exact I'].
    change (onState (setLastNotificationTime now)
              (onEnv (sendNotification now (selectedDistance (st w)))
                 (onEnv (reschedule h) w)))
      with (onEnv (sendNotification now (selectedDistance (st w)))
              (onState (setLastNotificationTime now) (onEnv (reschedule h) w))).
    assert (I2 : timersInv (onState (setLastNotificationTime now)
                              (onEnv (reschedule h) w))).
    { apply onState_timersInv; cbn; auto.
      unfold noDest. cbn. rewrite D. discriminate. }
    destruct I2 as (A2 & T2 & M2 & N2 & C2 & K2).
    split; [exact A2 | split; [| split; [exact M2 | auto]]].
    unfold timersOk, timersDuring, typedDuring, cleanupsBelow, busyAt,
      sendNotification in *. cbn in *.
    destruct (hasNotification (env w) && isGranted (permission (env w)));
      exact T2.
  - destruct (ceilDiv (lastNotificationTime (st w) - now) 1000 >? 0) eqn:G;
      apply onState_timersInv; cbn; auto; lia.
Qed.

Lemma mount_timersInv now geo notif p :
  0 <= now -> timersInv (mount now (freshBrowser geo notif p)).
Proof.
  intros Hn.
  unfold timersInv, refsAgree, timersOk, timersDuring, typedDuring,
    cleanupsBelow, busyAt, mirror, noDest, mount, permissionEffect,
    geolocationEffect.
  destruct now as [| n | n]; [| | lia];
    destruct geo, notif, p; cbn;
    (repeat split; cbn; try discriminate; try tauto; try lia;
     try (intros; exfalso; tauto)).
Qed.

Theorem step_Inv2 now ev w :
  0 <= now -> Inv w -> Inv2 w -> Inv2 (step now ev w).
Proof.
  intros Hn I I2. unfold step. unfold Inv2 in *.
  destruct (mounted w) eqn:M; cbn [negb]; [| intros X; congruence].
  specialize (I2 eq_refl). pose proof I as (_ & E & _).
  pose proof I2 as (A & T & Mi & N & C & K).
  destruct ev.
  - destruct (isSome (watchCleanup w)); [| auto].
    intros _. apply commit_timersInv. now apply onPosition_timersInv.
  - destruct (isSome (watchCleanup w)); [| auto].
    intros _. apply commit_timersInv. apply onState_timersInv; cbn; auto.
  - destruct (prompting (env w)); [| auto]. intros _. exact I2.
  - intros _. apply commit_timersInv. now apply handleMapClick_timersInv.
  - destruct (resetVisible (st w)); [| auto].
    intros _. apply commit_timersInv. apply onState_timersInv; cbn; auto.
    unfold noDest. cbn. auto.
  - intros _. apply commit_timersInv. apply onState_timersInv; cbn; auto.
  - destruct (existsb (Z.eqb km) distanceOptions) eqn:G; [| auto].
    intros _. apply commit_timersInv. apply onState_timersInv; cbn; auto.
    + unfold noDest. cbn. auto.
    + apply existsb_exists in G. destruct G as (x & Hx & Ex).
      apply Z.eqb_eq in Ex. subst x. exact Hx.
  - destruct (imUpVisible (st w)) eqn:V; [| auto].
    intros _. apply commit_timersInv. apply onState_timersInv; cbn; auto.
    unfold noDest. cbn. unfold imUpVisible in V.
    destruct (destinationPosition (st w)); [discriminate | discriminate].
  - destruct (findInterval h (env w)) as [i|] eqn:F; [| auto].
    destruct (due i <=? now); [| auto].
    intros _. apply commit_timersInv. now apply runCallback_timersInv.
  - unfold unmount. cbn. discriminate.
Qed.

Theorem reachable_Inv2 w : Reachable w -> Inv w /\ Inv2 w.
Proof.
  induction 1 as [now geo notif p Hn | now ev w _ (I & I2) Hn].
  - split; [now apply mount_Inv | intros _; now apply mount_timersInv].
  - split; [now apply step_Inv | now apply step_Inv2].
Qed.

(** ** Further properties of the notification paths *)

Lemma withRendered_same w : rendered w = st w -> withRendered (st w) w = w.
Proof. destruct w. cbn. intros ->. reflexivity. Qed.

(** With no dependency of effect 3 changed, the renders of an event only
    record the new state. *)
Lemma commit_quiet now w :
  distanceDepsChanged (rendered w) (st w) = false ->
  commit now w = withRendered (st w) w.
Proof.
  intros H. unfold commit. rewrite (pass_idle now w H).
  assert (Q : distanceDepsChanged (rendered (withRendered (st w) w))
                (st (withRendered (st w) w)) = false)
    by (apply depsChanged_inputs; reflexivity).
  rewrite (pass_idle now _ Q). cbn [st withRendered].
  change (withRendered (st w) (withRendered (st w) w))
    with (withRendered (st w) w).
  rewrite (pass_idle now _ Q). reflexivity.
Qed.

Lemma notifyDue_true now s :
  notifyDue now s = true ->
  notificationsEnabled s = true
  /\ 30000 <= now - lastNotificationTime s
  /\ exists up dp,
       userPosition s = Some up /\ destinationPosition s = Some dp
       /\ Qle_bool (computeDistance up dp) (inject_Z (selectedDistance s * 1000))
          = true.
Proof.
  intros H. pose proof (notifyDue_elapsed now s H) as T.
  unfold notifyDue in H.
  destruct (userPosition s) as [up|]; [| discriminate].
  destruct (destinationPosition s) as [dp|]; [| discriminate].
  apply andb_prop in H. destruct H as (H & _).
  apply andb_prop in H. destruct H as (En & Near).
  repeat split; auto. exists up, dp. auto.
Qed.

Lemma commit_silent now w :
  notifyDue now (st w) = false ->
  shown (env (commit now w)) = shown (env w)
  /\ lastNotificationTime (st (commit now w)) = lastNotificationTime (st w).
Proof.
  intros Q. destruct (commit_notifies now w) as (L & S).
  rewrite Q, andb_false_r in L, S. auto.
Qed.

Lemma shownAfter_cases now km b :
  shownAfter now km b = shown b
  \/ shownAfter now km b = mkNotification now km :: shown b.
Proof.
  unfold shownAfter, sendNotification.
  destruct (hasNotification b && isGranted (permission b)); cbn; auto.
Qed.

Lemma runCallback_shown now cb w :
  shown (env (runCallback now cb w)) = shown (env w)
  \/ (exists up dp km,
        cb = NotifyTick (Some up) (Some dp) km
        /\ Qle_bool (computeDistance up dp) (inject_Z (km * 1000)) = true
        /\ shown (env (runCallback now cb w)) = shownAfter now km (env w)
        /\ lastNotificationTime (st (runCallback now cb w)) = now).
Proof.
  unfold runCallback, computeDistance.
  destruct cb as [[up|] [dp|] km | last]; cbn; auto.
  - destruct (Qle_bool _ _) eqn:N; cbn; auto.
    right. exists up, dp, km. auto.
  - destruct (ceilDiv (last - now) 1000 >? 0); cbn; auto.
Qed.

Lemma runCallback_frame now cb w :
  let w' := runCallback now cb w in
  userPosition (st w') = userPosition (st w)
  /\ destinationPosition (st w') = destinationPosition (st w)
  /\ selectedDistance (st w') = selectedDistance (st w)
  /\ notificationsEnabled (st w') = notificationsEnabled (st w)
  /\ rendered w' = rendered w
  /\ (lastNotificationTime (st w') = lastNotificationTime (st w)
      \/ lastNotificationTime (st w') = now).
Proof.
  unfold runCallback, sendNotification.
  destruct cb as [[up|] [dp|] km | last]; cbn; auto 10.
  - destruct (Qle_bool _ _); cbn; auto 10.
  - destruct (ceilDiv (last - now) 1000 >? 0); cbn; auto 10.
Qed.

(** After the interval callback, effect 3 has nothing to send: either the
    callback just notified, or no dependency of the effect has changed. *)
Lemma after_callback_silent now h i w :
  rendered w = st w ->
  let w1 := runCallback now (callback i) (onEnv (reschedule h) w) in
  distanceDepsChanged (rendered w1) (st w1) && notifyDue now (st w1) = false.
Proof.
  intros E. cbn zeta.
  destruct (runCallback_frame now (callback i) (onEnv (reschedule h) w))
    as (U & D & K & N & R & [L | L]).
  - change (st (onEnv (reschedule h) w)) with (st w) in U, D, K, N, L.
    change (rendered (onEnv (reschedule h) w)) with (rendered w) in R.
    rewrite depsChanged_inputs; [reflexivity | | | | |]; rewrite R, E; congruence.
  - rewrite (notifyDue_just_notified _ _ L). apply andb_false_r.
Qed.

(** At most one notification per event, stamped with the time of the
    event. *)
Theorem one_notification_per_event now ev w :
  Reachable w ->
  shown (env (step now ev w)) = shown (env w)
  \/ exists km, shown (env (step now ev w)) = mkNotification now km :: shown (env w).
Proof.
  intros R. destruct (reachable_Inv w R) as (_ & E & _).
  assert (G : forall wh, shown (env wh) = shown (env w) ->
              shown (env (commit now wh)) = shown (env w)
              \/ exists km, shown (env (commit now wh))
                            = mkNotification now km :: shown (env w)).
  { intros wh Hs. destruct (commit_notifies now wh) as (_ & S). rewrite S.
    destruct (_ && _); [| auto].
    destruct (shownAfter_cases now (selectedDistance (st wh)) (env wh)) as [X | X];
      rewrite X, Hs; eauto. }
  unfold step. destruct (mounted w); cbn [negb]; [| auto].
  destruct ev; try (apply G; reflexivity).
  - destruct (isSome (watchCleanup w)); [apply G; reflexivity | auto].
  - destruct (isSome (watchCleanup w)); [apply G; reflexivity | auto].
  - destruct (prompting (env w)); auto.
  - destruct (resetVisible (st w)); [apply G; reflexivity | auto].
  - destruct (existsb (Z.eqb km) distanceOptions); [apply G; reflexivity | auto].
  - destruct (imUpVisible (st w)); [apply G; reflexivity | auto].
  - destruct (findInterval h (env w)) as [i|]; [| auto].
    destruct (due i <=? now); [| auto].
    destruct (commit_notifies now
                (runCallback now (callback i) (onEnv (reschedule h) w)))
      as (_ & S).
    rewrite (after_callback_silent now h i w E) in S. rewrite S.
    destruct (runCallback_shown now (callback i) (onEnv (reschedule h) w))
      as [X | (up & dp & km & _ & _ & X & _)].
    + left. exact X.
    + rewrite X.
      destruct (shownAfter_cases now km (env (onEnv (reschedule h) w))) as [Y | Y];
        rewrite Y; cbn; eauto.
  - left. unfold unmount, countdownCleanupRun, intervalCleanupRun, geolocationCleanup.
    destruct (watchCleanup w); cbn; destruct (intervalCleanup w); cbn;
      destruct (countdownCleanup w); reflexivity.
Qed.

(** Three renders are enough: the rendered values are then the state, and
    a further render, at any time, runs no effect and changes nothing.  In
    particular effect 3, which writes [lastNotificationTime] and depends on
    it, does not keep re-rendering. *)
Theorem renders_settle now later w :
  rendered (commit now w) = st (commit now w)
  /\ pass later (commit now w) = commit now w.
Proof.
  pose proof (commit_settled now w) as E. split; [exact E |].
  generalize dependent (commit now w). intros wc E.
  rewrite pass_idle.
  - now apply withRendered_same.
  - apply depsChanged_inputs; congruence.
Qed.

Lemma commit_near now wh :
  synced (st (commit now wh)) ->
  notifyDue now (st wh) = true ->
  notificationsEnabled (st (commit now wh)) = true
  /\ isNearDestination (st (commit now wh)) = true.
Proof.
  intros S Q. destruct (notifyDue_true now (st wh) Q)
    as (En & _ & up & dp & U & D & Near).
  destruct (commit_frame now wh) as (F1 & F2 & F3 & F4 & _).
  generalize dependent (commit now wh). intros wc S F1 F2 F3 F4.
  split; [congruence |].
  unfold synced, evaluateProximity in S. rewrite F1, F2, F3, U, D in S.
  cbv zeta in S. rewrite Near in S. apply pair_equal_spec in S. apply S.
Qed.

Lemma commit_cooldown now wh :
  synced (st (commit now wh)) ->
  (shown (env (commit now wh)) = shown (env wh)
   /\ lastNotificationTime (st (commit now wh)) = lastNotificationTime (st wh))
  \/ (shown (env (commit now wh)) = shownAfter now (selectedDistance (st wh)) (env wh)
      /\ lastNotificationTime (st (commit now wh)) = now
      /\ 30000 <= now - lastNotificationTime (st wh)
      /\ notificationsEnabled (st (commit now wh)) = true
      /\ isNearDestination (st (commit now wh)) = true).
Proof.
  intros S. destruct (commit_notifies now wh) as (L & Sh).
  assert (N : notifyDue now (st wh) = true ->
              notificationsEnabled (st (commit now wh)) = true
              /\ isNearDestination (st (commit now wh)) = true)
    by (intros Q; now apply commit_near).
  generalize dependent (commit now wh). intros wc _ L Sh N.
  destruct (distanceDepsChanged (rendered wh) (st wh)); cbn [andb] in L, Sh;
    [| now left].
  destruct (notifyDue now (st wh)) eqn:Q; [| now left].
  right. destruct (N eq_refl) as (En & Near).
  repeat split; auto. now apply notifyDue_elapsed.
Qed.

Lemma commit_cooldown_from now wh w :
  synced (st (commit now wh)) ->
  lastNotificationTime (st wh) = lastNotificationTime (st w) ->
  selectedDistance (st wh) = selectedDistance (st w) ->
  shown (env wh) = shown (env w) ->
  hasNotification (env wh) = hasNotification (env w) ->
  permission (env wh) = permission (env w) ->
  (shown (env (commit now wh)) = shown (env w)
   /\ lastNotificationTime (st (commit now wh)) = lastNotificationTime (st w))
  \/ (shown (env (commit now wh)) = shownAfter now (selectedDistance (st w)) (env w)
      /\ lastNotificationTime (st (commit now wh)) = now
      /\ 30000 <= now - lastNotificationTime (st w)
      /\ notificationsEnabled (st (commit now wh)) = true
      /\ isNearDestination (st (commit now wh)) = true).
Proof.
  intros S L K Sh H P.
  destruct (commit_cooldown now wh S) as [(X & Y) | (X & Y & Z & V)].
  - left. split; congruence.
  - right. rewrite X, Y. rewrite <- L, <- K.
    split; [apply shownAfter_ext; auto | auto].
Qed.

(** The events of the position path: their handlers leave the time of the
    last notification alone. *)
Definition positionPath (ev : Event) : bool :=
  match ev with
  | EvPosition _ _ | EvPositionError _ | EvMapClick _ _ | EvToggle => true
  | _ => false
  end.

(** On the position path a notification goes out only when notifications
    are on, the user is near and at least 30000 ms have passed since the
    last one; the time of the last one then becomes the time of the
    event. *)
Lemma position_path_cases now ev w :
  Reachable w -> 0 <= now -> positionPath ev = true ->
  let w' := step now ev w in
  (shown (env w') = shown (env w)
   /\ lastNotificationTime (st w') = lastNotificationTime (st w))
  \/ (shown (env w') = shownAfter now (selectedDistance (st w)) (env w)
      /\ lastNotificationTime (st w') = now
      /\ 30000 <= now - lastNotificationTime (st w)
      /\ notificationsEnabled (st w') = true
      /\ isNearDestination (st w') = true).
Proof.
  intros R Hn P. cbn zeta.
  pose proof (step_Inv now ev w Hn (reachable_Inv w R)) as (S & _).
  revert S. unfold step. destruct (mounted w); cbn [negb]; [| auto].
  destruct ev; try discriminate P.
  - destruct (isSome (watchCleanup w)); [| auto]. intros S.
    apply (commit_cooldown_from now (onPosition latitude longitude w) w S);
      reflexivity.
  - destruct (isSome (watchCleanup w)); [| auto]. intros S.
    apply (commit_cooldown_from now (onState (onPositionError message) w) w S);
      reflexivity.
  - intros S.
    apply (commit_cooldown_from now (handleMapClick la lo w) w S); reflexivity.
  - intros S.
    apply (commit_cooldown_from now (onState toggleNotifications w) w S);
      reflexivity.
Qed.

Lemma step_synced now ev w :
  Reachable w -> 0 <= now -> synced (st (step now ev w)).
Proof. intros R Hn. apply (step_Inv now ev w Hn (reachable_Inv w R)). Qed.

Lemma commit_far now wh :
  synced (st (commit now wh)) ->
  isNearDestination (st (commit now wh)) = false ->
  shown (env (commit now wh)) = shown (env wh).
Proof.
  intros S F. destruct (commit_cooldown now wh S) as [(X & _) | (_ & _ & _ & _ & N)];
    [exact X | congruence].
Qed.

(** Outside the threshold nothing is ever sent, by either path and however
    long ago the last notification was: the 60 s interval of effect 3 is
    never used. *)
Theorem far_user_never_notified now ev w :
  Reachable w -> 0 <= now ->
  isNearDestination (st (step now ev w)) = false ->
  shown (env (step now ev w)) = shown (env w).
Proof.
  intros R Hn. pose proof (step_synced now ev w R Hn) as S.
  destruct (reachable_Inv2 w R) as ((S0 & E & _) & I2).
  revert S. unfold step. unfold Inv2 in I2.
  destruct (mounted w); cbn [negb]; [| auto]. specialize (I2 eq_refl).
  destruct ev.
  - destruct (isSome (watchCleanup w)); [| auto]. intros S F.
    now rewrite (commit_far now _ S F).
  - destruct (isSome (watchCleanup w)); [| auto]. intros S F.
    now rewrite (commit_far now _ S F).
  - destruct (prompting (env w)); auto.
  - intros S F. now rewrite (commit_far now _ S F).
  - destruct (resetVisible (st w)); [| auto]. intros S F.
    now rewrite (commit_far now _ S F).
  - intros S F. now rewrite (commit_far now _ S F).
  - destruct (existsb (Z.eqb km) distanceOptions); [| auto]. intros S F.
    now rewrite (commit_far now _ S F).
  - destruct (imUpVisible (st w)); [| auto]. intros S F.
    now rewrite (commit_far now _ S F).
  - destruct (findInterval h (env w)) as [i|] eqn:Fi; [| auto].
    destruct (due i <=? now); [| auto]. intros S F.
    rewrite (commit_far now _ S F).
    destruct (runCallback_shown now (callback i) (onEnv (reschedule h) w))
      as [X | (up & dp & km & C & Near & _)]; [exact X | exfalso].
    destruct I2 as (_ & T & _).
    destruct (fired_closure h i w E T Fi) as [(B & _) | B];
      rewrite C in B; [| discriminate].
    unfold notifyClosure in B. injection B as U D K.
    destruct (runCallback_frame now (callback i) (onEnv (reschedule h) w))
      as (F1 & F2 & F3 & _).
    destruct (commit_frame now (runCallback now (callback i) (onEnv (reschedule h) w)))
      as (G1 & G2 & G3 & _).
    change (st (onEnv (reschedule h) w)) with (st w) in F1, F2, F3.
    generalize dependent (commit now (runCallback now (callback i)
                                        (onEnv (reschedule h) w))).
    intros wc S F G1 G2 G3.
    unfold synced, evaluateProximity in S.
    rewrite G1, G2, G3, F1, F2, F3, <- U, <- D, <- K in S. cbv zeta in S.
    rewrite Near in S. apply pair_equal_spec in S. destruct S as (_ & S).
    congruence.
  - intros _ _. unfold unmount, countdownCleanupRun, intervalCleanupRun,
      geolocationCleanup.
    destruct (watchCleanup w); cbn; destruct (intervalCleanup w); cbn;
      destruct (countdownCleanup w); reflexivity.
Qed.

(** ** The snooze on the position path *)

(** C10.  "I'm up" at time [t] writes [t + 300000] into the time of the
    last notification, the field the cooldown test of effect 3 reads.  For
    every reachable state whose field holds [t + 300000]: no event of the
    position path notifies before [t + 300000 + 30000], and the field stays
    as it is; and a position update inside the threshold at time [now]
    notifies exactly when [t + 300000 + 30000 <= now].  On this path the
    suppression lasts 30 s longer than the five minutes. *)
Theorem snooze_extends_cooldown (t : Z) (w : World) :
  Reachable w ->
  (mounted w = true -> imUpVisible (st w) = true -> 0 <= t ->
   Reachable (step t EvImUp w)
   /\ lastNotificationTime (st (step t EvImUp w)) = t + 300000
   /\ shown (env (step t EvImUp w)) = shown (env w))
  /\ (lastNotificationTime (st w) = t + 300000 ->
      (forall now ev,
         0 <= now -> positionPath ev = true -> now < t + 300000 + 30000 ->
         shown (env (step now ev w)) = shown (env w)
         /\ lastNotificationTime (st (step now ev w)) = t + 300000)
      /\ (forall now la lo dp,
            mounted w = true -> isSome (watchCleanup w) = true ->
            hasNotification (env w) = true -> permission (env w) = PermGranted ->
            notificationsEnabled (st w) = true ->
            destinationPosition (st w) = Some dp ->
            Qle_bool (distanceTo (L_latLng la lo) (L_latLng (lat dp) (lng dp)))
              (inject_Z (selectedDistance (st w) * 1000)) = true ->
            let w2 := step now (EvPosition la lo) w in
            (lastNotificationTime (st w2), shown (env w2))
            = if t + 300000 + 30000 <=? now
              then (now, mkNotification now (selectedDistance (st w))
                           :: shown (env w))
              else (t + 300000, shown (env w)))).
Proof.
  intros R. split.
  - intros M V Ht. split; [now apply Reachable_step |].
    rewrite (step_imUp t w M V).
    assert (Q1 : notifyDue t (st (onState (imUp t) w)) = false).
    { apply notifyDue_not_elapsed. cbn. lia. }
    destruct (commit_silent t (onState (imUp t) w) Q1) as (S & L).
    split; [exact L | exact S].
  - intros Lw. split.
    + intros now ev Hn P Early.
      pose proof (position_path_cases now ev w R Hn P) as H. cbv zeta in H.
      destruct H as [(S & L) | (_ & _ & El & _)]; [| lia].
      split; congruence.
    + intros now la lo dp M Wa HN PG En D Near. cbv zeta.
      destruct (reachable_Inv w R) as (_ & _ & (_ & _ & A3 & _) & _).
      rewrite (step_position now la lo w M Wa).
      destruct (onPosition_fields la lo w)
        as (U2 & D2 & K2 & N2 & L2 & R2 & S2 & H2 & P2).
      assert (C : distanceDepsChanged (rendered (onPosition la lo w))
                    (st (onPosition la lo w)) = true).
      { unfold distanceDepsChanged. rewrite U2, R2.
        now rewrite (sameRef_fresh _ _ la lo A3). }
      assert (Q2 : notifyDue now (st (onPosition la lo w))
                   = (t + 300000 + 30000 <=? now)).
      { unfold notifyDue, computeDistance.
        rewrite U2, D2, N2, K2, L2, D, En, Lw.
        cbn [lat lng andb]. rewrite Near. cbn [andb].
        destruct (t + 300000 + 30000 <=? now) eqn:X; lia. }
      destruct (commit_notifies now (onPosition la lo w)) as (L3 & S3).
      rewrite C, Q2 in L3, S3. cbn [andb] in L3, S3.
      rewrite L3, S3, L2, K2, S2, Lw.
      destruct (t + 300000 + 30000 <=? now); [| reflexivity].
      f_equal. rewrite <- S2. apply shownAfter_granted; congruence.
Qed.

(** ** Further properties: timers and silence *)

Lemma scheduled_shape w :
  Reachable w -> mounted w = true ->
  rendered w = st w /\ intervalIdle w /\ timersInv w.
Proof.
  intros R M. destruct (reachable_Inv2 w R) as ((_ & E & _ & (_ & I & _)) & I2).
  auto.
Qed.

(** No interval runs on stale values: every scheduled interval is the 30 s
    interval with the current position, destination and threshold in its
    closure, held in [notificationInterval] and there only while
    notifications are on and a destination is set, or it is the 1 s
    countdown for the current time of the last notification. *)
Theorem scheduled_intervals_current w :
  Reachable w -> mounted w = true ->
  forall i, In i (intervals (env w)) ->
    (callback i = NotifyTick (userPosition (st w)) (destinationPosition (st w))
                    (selectedDistance (st w))
     /\ period i = 30000
     /\ notificationInterval (st w) = Some (handle i)
     /\ notificationsEnabled (st w) = true
     /\ destinationPosition (st w) <> None)
    \/ (callback i = CountdownTick (lastNotificationTime (st w))
        /\ period i = 1000).
Proof.
  intros R M i Hi.
  destruct (scheduled_shape w R M) as (E & I & (_ & (T & _) & Mi & _)).
  destruct (T i Hi) as (_ & [(_ & A & B & C) | (_ & _ & B & C)]);
    rewrite E in B; [left | right; auto].
  unfold notifyClosure in B. unfold mirror in Mi.
  split; [exact B |]. split; [exact C |]. split; [congruence |].
  unfold intervalIdle in I. rewrite E in I.
  destruct (notificationsEnabled (st w)) eqn:En.
  - split; [reflexivity |]. intros D. rewrite I in A; [discriminate | now right].
  - rewrite I in A; [discriminate | now left].
Qed.

(** The 30 s interval is scheduled exactly while notifications are on and a
    destination is set. *)
Theorem interval_scheduled_iff w :
  Reachable w -> mounted w = true ->
  (exists i, In i (intervals (env w)) /\ period i = 30000)
  <-> notificationsEnabled (st w) = true /\ destinationPosition (st w) <> None.
Proof.
  intros R M.
  destruct (scheduled_shape w R M) as (E & I & (_ & (T & (_ & _ & B3) & Bu) & _)).
  split.
  - intros (i & Hi & P).
    destruct (T i Hi) as (_ & [(_ & A & _) | (_ & _ & _ & C)]); [| lia].
    unfold intervalIdle in I. rewrite E in I.
    destruct (notificationsEnabled (st w)) eqn:En.
    + split; [reflexivity |]. intros D. rewrite I in A; [discriminate | now right].
    + rewrite I in A; [discriminate | now left].
  - intros (En & D). unfold busyAt in Bu. rewrite E in Bu.
    destruct (Bu eq_refl En D) as (i & Hi & Hc). exists i. split; [exact Hi |].
    destruct (T i Hi) as (_ & [(_ & _ & _ & C) | (_ & A & _)]); [exact C |].
    exfalso. exact (B3 _ Hc A).
Qed.

Lemma notifyDue_disabled now s :
  notificationsEnabled s = false -> notifyDue now s = false.
Proof.
  unfold notifyDue. intros ->.
  destruct (userPosition s), (destinationPosition s); reflexivity.
Qed.

Lemma notifyDue_no_destination now s :
  destinationPosition s = None -> notifyDue now s = false.
Proof. unfold notifyDue. intros ->. destruct (userPosition s); reflexivity. Qed.

Lemma commit_shown_silent now wh w :
  notifyDue now (st wh) = false -> shown (env wh) = shown (env w) ->
  shown (env (commit now wh)) = shown (env w).
Proof.
  intros Q S. destruct (commit_silent now wh Q) as (X & _). congruence.
Qed.

Lemma unmount_shown w : shown (env (unmount w)) = shown (env w).
Proof.
  unfold unmount, countdownCleanupRun, intervalCleanupRun, geolocationCleanup.
  destruct (watchCleanup w); cbn; destruct (intervalCleanup w); cbn;
    destruct (countdownCleanup w); reflexivity.
Qed.

(** The interval that fires while effect 4 holds no interval is the
    countdown, which shows nothing and leaves the inputs of effect 3 as
    they are. *)
Lemma countdown_fired now h i w :
  rendered w = st w -> intervalCleanup w = None -> timersOk w ->
  findInterval h (env w) = Some i ->
  let w1 := runCallback now (callback i) (onEnv (reschedule h) w) in
  shown (env w1) = shown (env w)
  /\ userPosition (st w1) = userPosition (st w)
  /\ destinationPosition (st w1) = destinationPosition (st w)
  /\ notificationsEnabled (st w1) = notificationsEnabled (st w)
  /\ lastNotificationTime (st w1) = lastNotificationTime (st w).
Proof.
  intros E Ic T F. cbn zeta.
  destruct (fired_closure h i w E T F) as [(_ & B) | B]; [congruence |].
  rewrite B. unfold runCallback.
  destruct (ceilDiv _ _ >? 0); cbn; auto.
Qed.

(** With notifications switched off nothing is shown, whatever happens
    except switching them on again. *)
Theorem notifications_off_silent now ev w :
  Reachable w -> notificationsEnabled (st w) = false -> ev <> EvToggle ->
  shown (env (step now ev w)) = shown (env w).
Proof.
  intros R En Nt. unfold step.
  destruct (mounted w) eqn:M; cbn [negb]; [| reflexivity].
  destruct (scheduled_shape w R M) as (E & I & (_ & T & _)).
  assert (Ic : intervalCleanup w = None).
  { apply I. left. now rewrite E. }
  destruct ev; try congruence.
  - destruct (isSome (watchCleanup w)); [| reflexivity].
    apply commit_shown_silent; [now apply notifyDue_disabled | reflexivity].
  - destruct (isSome (watchCleanup w)); [| reflexivity].
    apply commit_shown_silent; [now apply notifyDue_disabled | reflexivity].
  - destruct (prompting (env w)); reflexivity.
  - apply commit_shown_silent; [now apply notifyDue_disabled | reflexivity].
  - destruct (resetVisible (st w)); [| reflexivity].
    apply commit_shown_silent; [now apply notifyDue_disabled | reflexivity].
  - destruct (existsb (Z.eqb km) distanceOptions); [| reflexivity].
    apply commit_shown_silent; [now apply notifyDue_disabled | reflexivity].
  - destruct (imUpVisible (st w)); [| reflexivity].
    apply commit_shown_silent; [now apply notifyDue_disabled | reflexivity].
  - destruct (findInterval h (env w)) as [i|] eqn:F; [| reflexivity].
    destruct (due i <=? now); [| reflexivity].
    destruct (countdown_fired now h i w E Ic T F) as (S & _ & _ & N & _).
    apply commit_shown_silent; [| exact S].
    apply notifyDue_disabled. congruence.
  - apply unmount_shown.
Qed.

(** Without a destination nothing is shown and none appears, whatever
    happens except a click on the map; and no cooldown or snooze is
    pending. *)
Theorem no_destination_silent now ev w :
  Reachable w -> destinationPosition (st w) = None ->
  (forall la lo, ev <> EvMapClick la lo) ->
  shown (env (step now ev w)) = shown (env w)
  /\ destinationPosition (st (step now ev w)) = None
  /\ (mounted w = true ->
      lastNotificationTime (st w) = 0
      /\ forall t, 0 <= t -> snoozeActive t (st w) = false).
Proof.
  intros R D Nc.
  assert (G : forall wh,
              destinationPosition (st wh) = None -> shown (env wh) = shown (env w) ->
              shown (env (commit now wh)) = shown (env w)
              /\ destinationPosition (st (commit now wh)) = None).
  { intros wh Dh Sh. split.
    - apply commit_shown_silent; [now apply notifyDue_no_destination | exact Sh].
    - destruct (commit_frame now wh) as (_ & F & _). congruence. }
  split; [| split].
  - unfold step. destruct (mounted w) eqn:M; cbn [negb]; [| reflexivity].
    destruct (scheduled_shape w R M) as (E & I & (_ & T & _)).
    assert (Ic : intervalCleanup w = None).
    { apply I. right. now rewrite E. }
    destruct ev.
    + destruct (isSome (watchCleanup w)); [| reflexivity]. now apply G.
    + destruct (isSome (watchCleanup w)); [| reflexivity]. now apply G.
    + destruct (prompting (env w)); reflexivity.
    + exfalso. now apply (Nc la lo).
    + destruct (resetVisible (st w)); [| reflexivity]. now apply G.
    + now apply G.
    + destruct (existsb (Z.eqb km) distanceOptions); [| reflexivity]. now apply G.
    + destruct (imUpVisible (st w)); [| reflexivity]. now apply G.
    + destruct (findInterval h (env w)) as [i|] eqn:F; [| reflexivity].
      destruct (due i <=? now); [| reflexivity].
      destruct (countdown_fired now h i w E Ic T F) as (S & _ & Dd & _).
      apply G; congruence.
    + apply unmount_shown.
  - unfold step. destruct (mounted w) eqn:M; cbn [negb]; [| exact D].
    destruct (scheduled_shape w R M) as (E & I & (_ & T & _)).
    assert (Ic : intervalCleanup w = None).
    { apply I. right. now rewrite E. }
    destruct ev.
    + destruct (isSome (watchCleanup w)); [| exact D]. now apply G.
    + destruct (isSome (watchCleanup w)); [| exact D]. now apply G.
    + destruct (prompting (env w)); exact D.
    + exfalso. now apply (Nc la lo).
    + destruct (resetVisible (st w)); [| exact D]. now apply G.
    + now apply G.
    + destruct (existsb (Z.eqb km) distanceOptions); [| exact D]. now apply G.
    + destruct (imUpVisible (st w)); [| exact D]. now apply G.
    + destruct (findInterval h (env w)) as [i|] eqn:F; [| exact D].
      destruct (due i <=? now); [| exact D].
      destruct (countdown_fired now h i w E Ic T F) as (S & _ & Dd & _).
      apply G; congruence.
    + unfold unmount, countdownCleanupRun, intervalCleanupRun, geolocationCleanup.
      destruct (watchCleanup w); cbn; destruct (intervalCleanup w); cbn;
        destruct (countdownCleanup w); exact D.
  - intros M. destruct (scheduled_shape w R M) as (_ & _ & (_ & _ & _ & N & _)).
    specialize (N D). split; [exact N |].
    intros t Ht. unfold snoozeActive. lia.
Qed.





(** The threshold is always one of the six values the selector offers. *)
Theorem threshold_is_an_option w :
  Reachable w -> mounted w = true ->
  In (selectedDistance (st w)) distanceOptions
  /\ 2 <= selectedDistance (st w) <= 20.
Proof.
  intros R M. destruct (scheduled_shape w R M) as (_ & _ & (_ & _ & _ & _ & _ & K)).
  split; [exact K |]. unfold distanceOptions in K. cbn in K.
  repeat (destruct K as [<- | K]; [lia |]). destruct K.
Qed.

Lemma ceilDiv_spec a :
  1000 * (ceilDiv a 1000 - 1) < a <= 1000 * ceilDiv a 1000.
Proof.
  unfold ceilDiv. pose proof (Z.div_mod (- a) 1000 ltac:(lia)) as E.
  pose proof (Z.mod_pos_bound (- a) 1000 ltac:(lia)) as B. lia.
Qed.

(** The countdown tick is a read-only projection: it writes the remaining
    time in whole seconds, rounded up and never negative, into
    [countdownSeconds], and runs no effect: nothing is shown and nothing
    else changes. *)
Theorem countdown_tick_projection now h i w :
  Reachable w -> mounted w = true ->
  findInterval h (env w) = Some i -> period i = 1000 -> due i <= now ->
  let w' := step now (EvTimer h) w in
  let c := countdownSeconds (st w') in
  let remaining := lastNotificationTime (st w) - now in
  st w' = setCountdownSeconds c (st w)
  /\ 0 <= c
  /\ (c = 0 <-> remaining <= 0)
  /\ (0 < c -> 1000 * (c - 1) < remaining <= 1000 * c)
  /\ shown (env w') = shown (env w)
  /\ intervalCleanup w' = intervalCleanup w
  /\ countdownCleanup w' = countdownCleanup w.
Proof.
  intros R M F P D. cbn zeta.
  destruct (scheduled_shape w R M) as (E & _ & (_ & T & _)).
  assert (C : callback i = CountdownTick (lastNotificationTime (st w))).
  { destruct T as (T & _). destruct (T i (findInterval_In _ _ _ F))
      as (_ & [(_ & _ & _ & X) | (_ & _ & B & _)]); [lia |].
    now rewrite E in B. }
  assert (S : step now (EvTimer h) w
              = commit now (runCallback now (callback i) (onEnv (reschedule h) w))).
  { unfold step. rewrite M, F. cbn [negb].
    destruct (due i <=? now) eqn:X; [reflexivity | lia]. }
  rewrite S, C. unfold runCallback.
  set (a := lastNotificationTime (st w) - now).
  pose proof (ceilDiv_spec a) as Sp.
  assert (G : forall c, 0 <= c -> (c = 0 <-> a <= 0) ->
              (0 < c -> 1000 * (c - 1) < a <= 1000 * c) ->
              let w1 := onState (setCountdownSeconds c) (onEnv (reschedule h) w) in
              st (commit now w1) = setCountdownSeconds (countdownSeconds (st (commit now w1))) (st w)
              /\ 0 <= countdownSeconds (st (commit now w1))
              /\ (countdownSeconds (st (commit now w1)) = 0 <-> a <= 0)
              /\ (0 < countdownSeconds (st (commit now w1)) ->
                  1000 * (countdownSeconds (st (commit now w1)) - 1) < a
                  <= 1000 * countdownSeconds (st (commit now w1)))
              /\ shown (env (commit now w1)) = shown (env w)
              /\ intervalCleanup (commit now w1) = intervalCleanup w
              /\ countdownCleanup (commit now w1) = countdownCleanup w).
  { intros c C0 C1 C2. cbn zeta. rewrite commit_quiet.
    - cbn. repeat split; auto; apply C1 || apply C2; auto.
    - apply depsChanged_inputs; cbn; rewrite E; reflexivity. }
  destruct (ceilDiv a 1000 >? 0) eqn:X.
  - apply G; lia.
  - apply G; lia.
Qed.

Lemma pass_snoozed now w :
  now < lastNotificationTime (st w) ->
  countdownSeconds (st (pass now w)) = countdownSeconds (st w)
  /\ lastNotificationTime (st (pass now w)) = lastNotificationTime (st w).
Proof.
  intros H.
  assert (L : lastNotificationTime (st (pass now w)) = lastNotificationTime (st w)).
  { destruct (pass_last now w) as [L | (_ & _ & T)]; [exact L | lia]. }
  split; [| exact L]. clear L.
  rewrite pass_when. cbn zeta.
  set (r := st w) in *. set (d := rendered w).
  change (st (withRendered r ?x)) with (st x).
  set (w4 := when (intervalDepsChanged d r) (intervalEffect now r)
               (when (distanceDepsChanged d r) (distanceEffect now r)
                  (when (countdownDepsChanged d r) countdownCleanupRun
                     (when (intervalDepsChanged d r) intervalCleanupRun w)))).
  assert (X : countdownSeconds (st w4) = countdownSeconds (st w)).
  { unfold w4.
    repeat rewrite (when_keeps (fun w => countdownSeconds (st w)))
      by (intro; apply (effects_countdownSeconds now r)).
    reflexivity. }
  clearbody w4. unfold when. destruct (countdownDepsChanged d r); [| exact X].
  unfold countdownEffect.
  destruct (lastNotificationTime r >? now) eqn:G; [exact X | lia].
Qed.

(** Pressing "I'm up" does not take the button away: [countdownSeconds]
    stays 0 until the first countdown tick, so until then the button can be
    pressed again, which moves the end of the snooze. *)
Theorem imUp_button_stays t w :
  mounted w = true -> imUpVisible (st w) = true ->
  let w1 := step t EvImUp w in
  imUpVisible (st w1) = true
  /\ countdownSeconds (st w1) = 0
  /\ snoozeActive t (st w1) = true
  /\ forall t2, lastNotificationTime (st (step t2 EvImUp w1)) = t2 + 300000.
Proof.
  intros M V. cbn zeta. rewrite (step_imUp t w M V).
  pose proof V as V0. unfold imUpVisible in V0.
  apply andb_prop in V0. destruct V0 as (V0 & Cs).
  apply andb_prop in V0. destruct V0 as (Ds & En). apply Z.eqb_eq in Cs.
  set (w0 := onState (imUp t) w).
  assert (L0 : t < lastNotificationTime (st w0)) by (cbn; lia).
  destruct (pass_snoozed t w0 L0) as (C1 & L1).
  destruct (pass_snoozed t (pass t w0)) as (C2 & L2); [lia |].
  destruct (pass_snoozed t (pass t (pass t w0))) as (C3 & L3); [lia |].
  fold (commit t w0) in C3, L3.
  destruct (commit_frame t w0) as (_ & D & _ & N & _ & M' & _).
  assert (Cc : countdownSeconds (st (commit t w0)) = 0)
    by (rewrite C3, C2, C1; exact Cs).
  assert (Lc : lastNotificationTime (st (commit t w0)) = t + 300000)
    by (rewrite L3, L2, L1; reflexivity).
  change (destinationPosition (st w0)) with (destinationPosition (st w)) in D.
  change (notificationsEnabled (st w0)) with (notificationsEnabled (st w)) in N.
  change (mounted w0) with (mounted w) in M'.
  generalize dependent (commit t w0). intros w1 _ _ D N M' Cc Lc.
  assert (V1 : imUpVisible (st w1) = true).
  { unfold imUpVisible. rewrite D, N, Cc, Ds, En. reflexivity. }
  split; [exact V1 |]. split; [exact Cc |].
  split; [unfold snoozeActive; lia |].
  intros t2. rewrite (step_imUp t2 w1) by congruence.
  assert (Q : notifyDue t2 (st (onState (imUp t2) w1)) = false).
  { apply notifyDue_not_elapsed. cbn. lia. }
  apply (commit_silent t2 _ Q).
Qed.

(** An error of the position source only sets the message: the state is
    otherwise untouched, no effect runs, timers and subscription stay, and
    the next position clears the message. *)
Theorem position_error_keeps_tracking now message w :
  Reachable w -> mounted w = true -> isSome (watchCleanup w) = true ->
  let w' := step now (EvPositionError message) w in
  st w' = setGeoError
            (Some (if String.eqb message EmptyString
                   then "Failed to retrieve position"%string else message))
            (st w)
  /\ env w' = env w
  /\ intervalCleanup w' = intervalCleanup w
  /\ countdownCleanup w' = countdownCleanup w
  /\ watchCleanup w' = watchCleanup w
  /\ forall later la lo, geoError (st (step later (EvPosition la lo) w')) = None.
Proof.
  intros R M Wa. cbn zeta.
  destruct (reachable_Inv w R) as (_ & E & _).
  assert (S : step now (EvPositionError message) w
              = commit now (onState (onPositionError message) w)).
  { unfold step. now rewrite M, Wa. }
  rewrite S, commit_quiet
    by (apply depsChanged_inputs; cbn; rewrite E; reflexivity).
  cbn. repeat split.
  intros later la lo. unfold step. cbn. rewrite M, Wa. cbn.
  destruct (commit_frame later
              (onPosition la lo
                 (withRendered (onPositionError message (st w))
                    (onState (onPositionError message) w))))
    as (_ & _ & _ & _ & G & _).
  exact G.
Qed.

Lemma handleMapClick_fields la lo w :
  let w' := handleMapClick la lo w in
  destinationPosition (st w') = Some (mkTuple (nextAddr (env w)) la lo)
  /\ userPosition (st w') = userPosition (st w)
  /\ selectedDistance (st w') = selectedDistance (st w)
  /\ notificationsEnabled (st w') = notificationsEnabled (st w)
  /\ lastNotificationTime (st w') = lastNotificationTime (st w)
  /\ rendered w' = rendered w
  /\ shown (env w') = shown (env w)
  /\ hasNotification (env w') = hasNotification (env w)
  /\ permission (env w') = permission (env w).
Proof. cbn. repeat split. Qed.

(** Choosing a destination within the threshold notifies at once: with no
    destination there is no cooldown left over from an earlier one. *)
Theorem first_destination_notifies now la lo up w :
  Reachable w -> 0 <= now -> mounted w = true ->
  destinationPosition (st w) = None ->
  userPosition (st w) = Some up ->
  notificationsEnabled (st w) = true ->
  Qle_bool (distanceTo (L_latLng (lat up) (lng up)) (L_latLng la lo))
    (inject_Z (selectedDistance (st w) * 1000)) = true ->
  30000 <= now ->
  let w' := step now (EvMapClick la lo) w in
  lastNotificationTime (st w') = now
  /\ shown (env w') = shownAfter now (selectedDistance (st w)) (env w)
  /\ isNearDestination (st w') = true.
Proof.
  intros R Hn0 M D U En Near Hn. cbn zeta.
  pose proof (step_synced now (EvMapClick la lo) w R Hn0) as S.
  destruct (scheduled_shape w R M) as (_ & _ & (_ & _ & _ & N & _)).
  destruct (reachable_Inv w R) as (_ & _ & (_ & _ & _ & A4) & _).
  assert (St : step now (EvMapClick la lo) w = commit now (handleMapClick la lo w)).
  { unfold step. now rewrite M. }
  rewrite St in *.
  destruct (handleMapClick_fields la lo w)
    as (D2 & U2 & K2 & N2 & L2 & R2 & S2 & H2 & P2).
  assert (C : distanceDepsChanged (rendered (handleMapClick la lo w))
                (st (handleMapClick la lo w)) = true).
  { unfold distanceDepsChanged. rewrite D2, R2.
    rewrite (sameRef_fresh _ _ la lo A4). cbn. now rewrite orb_true_r. }
  assert (Q : notifyDue now (st (handleMapClick la lo w)) = true).
  { unfold notifyDue, computeDistance.
    rewrite U2, D2, N2, K2, L2, U, En, (N D). cbn [lat lng andb].
    rewrite Near. cbn [andb]. lia. }
  destruct (commit_notifies now (handleMapClick la lo w)) as (L3 & S3).
  rewrite C, Q in L3, S3. cbn [andb] in L3, S3.
  destruct (commit_near now _ S Q) as (_ & Ne).
  split; [exact L3 |]. split; [| exact Ne].
  rewrite S3, K2. apply shownAfter_ext; assumption.
Qed.

Lemma notifyDue_no_position now s :
  userPosition s = None -> notifyDue now s = false.
Proof. unfold notifyDue. intros ->. reflexivity. Qed.

(** Without a position subscription and without a position, an event
    leaves both as they are, shows nothing and keeps the error message. *)
Lemma step_without_position now ev w :
  Reachable w -> userPosition (st w) = None -> watchCleanup w = None ->
  userPosition (st (step now ev w)) = None
  /\ watchCleanup (step now ev w) = None
  /\ shown (env (step now ev w)) = shown (env w)
  /\ geoError (st (step now ev w)) = geoError (st w).
Proof.
  intros R U Wa.
  assert (G : forall wh,
              userPosition (st wh) = None -> watchCleanup wh = None ->
              shown (env wh) = shown (env w) -> geoError (st wh) = geoError (st w) ->
              userPosition (st (commit now wh)) = None
              /\ watchCleanup (commit now wh) = None
              /\ shown (env (commit now wh)) = shown (env w)
              /\ geoError (st (commit now wh)) = geoError (st w)).
  { intros wh Uh Wh Sh Gh.
    destruct (commit_frame now wh) as (F1 & _ & _ & _ & F5 & _ & F7 & _).
    pose proof (commit_shown_silent now wh w
                  (notifyDue_no_position now _ Uh) Sh) as X.
    repeat split; congruence. }
  unfold step. destruct (mounted w) eqn:M; cbn [negb]; [| auto].
  destruct (scheduled_shape w R M) as (E & _ & (_ & T & _)).
  destruct ev.
  - rewrite Wa. cbn. auto.
  - rewrite Wa. cbn. auto.
  - destruct (prompting (env w)); cbn; auto.
  - now apply G.
  - destruct (resetVisible (st w)); [| auto]. now apply G.
  - now apply G.
  - destruct (existsb (Z.eqb km) distanceOptions); [| auto]. now apply G.
  - destruct (imUpVisible (st w)); [| auto]. now apply G.
  - destruct (findInterval h (env w)) as [i|] eqn:F; [| auto].
    destruct (due i <=? now); [| auto].
    assert (X : let w1 := runCallback now (callback i) (onEnv (reschedule h) w) in
                userPosition (st w1) = None /\ watchCleanup w1 = None
                /\ shown (env w1) = shown (env w)
                /\ geoError (st w1) = geoError (st w)).
    { cbn zeta. destruct (fired_closure h i w E T F) as [(B & _) | B]; rewrite B.
      - unfold notifyClosure, runCallback. rewrite U. cbn. auto.
      - unfold runCallback. destruct (ceilDiv _ _ >? 0); cbn; auto. }
    cbn zeta in X. destruct X as (X1 & X2 & X3 & X4). now apply G.
  - unfold unmount, countdownCleanupRun, intervalCleanupRun, geolocationCleanup.
    rewrite Wa. destruct (intervalCleanup w); cbn;
      destruct (countdownCleanup w); cbn; auto.
Qed.

Definition unsupportedMessage : string :=
  "Geolocation is not supported by this browser."%string.

(** In a browser without geolocation the component reports it and never
    tracks: along every run there is no position, no distance, no
    subscription and no notification. *)
Theorem no_geolocation_no_tracking now notif p evs :
  0 <= now -> Forall (fun e => 0 <= fst e) evs ->
  let w := run evs (mount now (freshBrowser false notif p)) in
  geoError (st w) = Some unsupportedMessage
  /\ userPosition (st w) = None
  /\ distanceMeters (st w) = None
  /\ isNearDestination (st w) = false
  /\ watches (env w) = []
  /\ shown (env w) = [].
Proof.
  intros Hn Ht. cbn zeta.
  assert (J : forall w,
              Reachable w -> userPosition (st w) = None -> watchCleanup w = None ->
              shown (env w) = [] -> geoError (st w) = Some unsupportedMessage ->
              let w' := run evs w in
              Reachable w' /\ userPosition (st w') = None /\ watchCleanup w' = None
              /\ shown (env w') = [] /\ geoError (st w') = Some unsupportedMessage).
  { induction Ht as [| (t, ev) evs Ht0 _ IH]; intros w R U Wa S G; cbn zeta.
    - cbn. auto.
    - cbn [run]. cbn in Ht0.
      destruct (step_without_position t ev w R U Wa) as (U' & Wa' & S' & G').
      apply IH; try congruence. now apply Reachable_step. }
  destruct (J (mount now (freshBrowser false notif p))) as (R & U & Wa & S & G).
  - now apply Reachable_mount.
  - unfold mount, permissionEffect, geolocationEffect.
    destruct now as [| n | n]; [| | lia]; destruct notif, p; reflexivity.
  - unfold mount, permissionEffect, geolocationEffect.
    destruct now as [| n | n]; [| | lia]; destruct notif, p; reflexivity.
  - unfold mount, permissionEffect, geolocationEffect.
    destruct now as [| n | n]; [| | lia]; destruct notif, p; reflexivity.
  - unfold mount, permissionEffect, geolocationEffect.
    destruct now as [| n | n]; [| | lia]; destruct notif, p; reflexivity.
  - pose proof (reachable_Inv _ R) as (Sy & _ & _ & (_ & _ & _ & Wo)).
    generalize dependent (run evs (mount now (freshBrowser false notif p))).
    intros w R U Wa S G Sy Wo.
    destruct (synced_absent _ Sy (or_introl U)) as (X & Y).
    repeat split; auto.
    destruct (watches (env w)) as [| id l] eqn:Z; auto.
    specialize (Wo id). rewrite Z in Wo. specialize (Wo (or_introl eq_refl)).
    congruence.
Qed.

(** *** Position updates restart the 30 s interval *)

Definition isNotify (cb : Callback) : bool :=
  match cb with NotifyTick _ _ _ => true | CountdownTick _ => false end.

(** Every scheduled 30 s interval was set up at [now]. *)
Definition dueFrom (now : Z) (w : World) : Prop :=
  forall i, In i (intervals (env w)) -> isNotify (callback i) = true ->
    due i = now + 30000.

Lemma dueFrom_subset now w w' :
  (forall i, In i (intervals (env w')) -> In i (intervals (env w))) ->
  dueFrom now w -> dueFrom now w'.
Proof. unfold dueFrom. auto. Qed.

Lemma intervalCleanupRun_due now w : dueFrom now w -> dueFrom now (intervalCleanupRun w).
Proof.
  apply dueFrom_subset. unfold intervalCleanupRun.
  destruct (intervalCleanup w); cbn; auto.
  intros i Hi. apply filter_In in Hi. apply Hi.
Qed.

Lemma countdownCleanupRun_due now w : dueFrom now w -> dueFrom now (countdownCleanupRun w).
Proof.
  apply dueFrom_subset. unfold countdownCleanupRun.
  destruct (countdownCleanup w); cbn; auto.
  intros i Hi. apply filter_In in Hi. apply Hi.
Qed.

Lemma distanceEffect_due now r w : dueFrom now w -> dueFrom now (distanceEffect now r w).
Proof.
  apply dueFrom_subset. unfold_effects. split_matches; cbn; auto.
Qed.

Lemma intervalEffect_due now r w : dueFrom now w -> dueFrom now (intervalEffect now r w).
Proof.
  unfold dueFrom, intervalEffect. intros H.
  destruct (negb (notificationsEnabled r) || negb (isSome (destinationPosition r))).
  - destruct (notificationInterval r); cbn; auto.
    intros i Hi. apply filter_In in Hi. apply H, Hi.
  - cbn. intros i Hi N. apply in_app_iff in Hi. destruct Hi as [Hi | [<- | []]]; auto.
Qed.

Lemma countdownEffect_due now r w : dueFrom now w -> dueFrom now (countdownEffect now r w).
Proof.
  unfold dueFrom, countdownEffect. intros H.
  destruct (lastNotificationTime r >? now); cbn; auto.
  intros i Hi N. apply in_app_iff in Hi. destruct Hi as [Hi | [<- | []]]; auto.
  discriminate N.
Qed.

Lemma when_due now c f w :
  (forall w', dueFrom now w' -> dueFrom now (f w')) ->
  dueFrom now w -> dueFrom now (when c f w).
Proof. unfold when. destruct c; auto. Qed.

Lemma pass_due now w : dueFrom now w -> dueFrom now (pass now w).
Proof.
  intros H. rewrite pass_when. cbn zeta.
  change (dueFrom now (withRendered (st w) ?x)) with (dueFrom now x).
  apply when_due; [apply countdownEffect_due |].
  apply when_due; [apply intervalEffect_due |].
  apply when_due; [apply distanceEffect_due |].
  apply when_due; [apply countdownCleanupRun_due |].
  apply when_due; [apply intervalCleanupRun_due | exact H].
Qed.

(** A render in which effect 4 runs leaves no 30 s interval from before. *)
Lemma pass_restart now w :
  timersOk w -> intervalDepsChanged (rendered w) (st w) = true ->
  dueFrom now (pass now w).
Proof.
  intros T C. rewrite pass_when. cbn zeta. rewrite C.
  change (dueFrom now (withRendered (st w) ?x)) with (dueFrom now x).
  apply when_due; [apply countdownEffect_due |].
  unfold when at 1. apply intervalEffect_due.
  apply when_due; [apply distanceEffect_due |].
  apply when_due; [apply countdownCleanupRun_due |].
  unfold when. apply intervalCleanupRun_timers in T. destruct T as (T & _).
  intros i Hi N. destruct (T i Hi) as (_ & [(X & _) | (_ & _ & B & _)]);
    [discriminate |].
  rewrite B in N. discriminate.
Qed.

(** Every position update sets the 30 s interval up anew: afterwards it is
    due 30 s after the update.  While positions arrive more often than
    that, the interval never fires. *)
Theorem position_update_restarts_interval now la lo w :
  Reachable w -> 0 <= now -> mounted w = true -> isSome (watchCleanup w) = true ->
  forall i, In i (intervals (env (step now (EvPosition la lo) w))) ->
    period i = 30000 -> due i = now + 30000.
Proof.
  intros R Hn M Wa i.
  pose proof (Reachable_step now (EvPosition la lo) w R Hn) as R'.
  destruct (reachable_Inv2 w R) as (I & I2). specialize (I2 M).
  assert (M' : mounted (step now (EvPosition la lo) w) = true).
  { rewrite (step_position now la lo w M Wa).
    destruct (commit_frame now (onPosition la lo w)) as (_ & _ & _ & _ & _ & X & _).
    rewrite X. exact M. }
  destruct (scheduled_shape _ R' M') as (E' & _ & (_ & (T' & _) & _)).
  assert (D : dueFrom now (step now (EvPosition la lo) w)).
  { rewrite (step_position now la lo w M Wa). unfold commit.
    do 2 apply pass_due. apply pass_restart.
    - apply (onPosition_timersInv la lo w I I2).
    - destruct I as (_ & _ & (_ & _ & A3 & _) & _).
      unfold intervalDepsChanged.
      destruct (onPosition_fields la lo w) as (U2 & _ & _ & _ & _ & R2 & _).
      rewrite U2, R2, (sameRef_fresh _ _ la lo A3). cbn.
      now rewrite !orb_true_r. }
  generalize dependent (step now (EvPosition la lo) w). intros w' _ _ E' T' D Hi P.
  apply (D i Hi).
  destruct (T' i Hi) as (_ & [(_ & _ & B & _) | (_ & _ & _ & X)]); [| lia].
  rewrite B. reflexivity.
Qed.

End Tracker.

(** ** Runs on concrete inputs *)

(** A stand-in for Leaflet's distance on which the examples below run: the
    taxicab distance with 111320 m to the degree.  The theorems above hold
    for every distance function; this one only serves to evaluate them. *)
Definition planar (a b : LatLng) : Q :=
  (111320 * (Qabs.Qabs (ll_lat a - ll_lat b) + Qabs.Qabs (ll_lng a - ll_lng b)))%Q.

Definition T0 : Z := 1700000000000.

Definition exampleBrowser : Browser := freshBrowser true true PermGranted.

(** The user about 1.1 km from a destination chosen on the map. *)
Definition nearWorld : World :=
  run planar
    [(T0 + 1000, EvPosition 18.5 73.86); (T0 + 2000, EvMapClick 18.5 73.87)]
    (mount planar T0 exampleBrowser).

(** The same after "I'm up" was pressed at [T0 + 5000]. *)
Definition snoozedWorld : World := step planar (T0 + 5000) EvImUp nearWorld.

(** The same after the destination was reset at [T0 + 40000]. *)
Definition resetWorld : World := step planar (T0 + 40000) EvReset nearWorld.

(** ** The great-circle distance *)

(** A point on the sphere, in degrees. *)
Record GeoPoint : Type := mkGeoPoint { latitude : R; longitude : R }.

Definition validGeoPoint (p : GeoPoint) : Prop :=
  (-90 <= latitude p <= 90 /\ -180 <= longitude p <= 180)%R.

Definition earthRadius : R := 6371000%R.

Definition degree : R := (PI / 180)%R.

(** Modelled from the spec: [computeDistance] is Leaflet's
    [LatLng.distanceTo], which is not among the sources of this
    repository.  The specification describes it as the haversine
    great-circle distance on a sphere of radius 6371000 m; it is written
    here over the real numbers, of which the doubles of the program are
    roundings. *)
Definition haversine (a b : GeoPoint) : R :=
  (let sinDLat := sin ((latitude b - latitude a) * degree / 2) in
   let sinDLon := sin ((longitude b - longitude a) * degree / 2) in
   sinDLat * sinDLat
   + cos (latitude a * degree) * cos (latitude b * degree) * (sinDLon * sinDLon))%R.

Definition haversineDistance (a b : GeoPoint) : R :=
  (earthRadius * (2 * asin (sqrt (haversine a b))))%R.

(** ** The claims on concrete runs, and the notification paths *)

Ltac evaluate :=
  vm_compute; first [reflexivity | discriminate | intro; discriminate].

Lemma nearWorld_reachable : Reachable planar nearWorld.
Proof.
  unfold nearWorld. cbn [run].
  repeat (apply Reachable_step; [| evaluate]).
  apply Reachable_mount. evaluate.
Qed.

Lemma snoozedWorld_reachable : Reachable planar snoozedWorld.
Proof.
  unfold snoozedWorld. apply Reachable_step; [| evaluate].
  apply nearWorld_reachable.
Qed.

Lemma evaluateProximity_refined_witness :
  (distanceMeters (st nearWorld), isNearDestination (st nearWorld))
  = evaluateProximity planar (userPosition (st nearWorld))
      (destinationPosition (st nearWorld)) (selectedDistance (st nearWorld))
  /\ match userPosition (st nearWorld), destinationPosition (st nearWorld) with
     | Some c, Some d =>
         distanceMeters (st nearWorld) = Some (computeDistance planar c d)
         /\ isNearDestination (st nearWorld)
            = Qle_bool (computeDistance planar c d)
                (inject_Z (selectedDistance (st nearWorld) * 1000))
     | _, _ =>
         distanceMeters (st nearWorld) = None
         /\ isNearDestination (st nearWorld) = false
     end.
Proof.
  exact (evaluateProximity_refined planar nearWorld nearWorld_reachable).
Defined.

Lemma isNear_invariant_witness :
  nearFlagOk (st nearWorld)
  /\ forall now ev, 0 <= now -> nearFlagOk (st (step planar now ev nearWorld)).
Proof.
  exact (isNear_invariant planar nearWorld nearWorld_reachable).
Defined.

Lemma distance_null_iff_witness :
  distanceMeters (st resetWorld) = None
  <-> userPosition (st resetWorld) = None
      \/ destinationPosition (st resetWorld) = None.
Proof.
  apply (distance_null_iff planar resetWorld).
  unfold resetWorld. apply Reachable_step; [| evaluate].
  apply nearWorld_reachable.
Defined.

Lemma resetDestination_clears_witness :
  destinationPosition (st resetWorld) = None
  /\ distanceMeters (st resetWorld) = None
  /\ isNearDestination (st resetWorld) = false
  /\ lastNotificationTime (st resetWorld) = 0
  /\ (forall t, 0 <= t -> snoozeActive t (st resetWorld) = false)
  /\ selectedDistance (st resetWorld) = 5
  /\ notificationsEnabled (st resetWorld) = true.
Proof.
  exact (proj2 (resetDestination_clears planar (T0 + 40000) nearWorld
                  ltac:(evaluate) ltac:(evaluate))).
Defined.

Lemma setThreshold_rearms_witness :
  let s1 := handleDistanceChange 2 (st nearWorld) in
  let w' := step planar (T0 + 9000) (EvDistanceChange 2) nearWorld in
  selectedDistance s1 = 2
  /\ lastNotificationTime s1 = 0
  /\ notifyDue planar (T0 + 9000) s1 = true
  /\ selectedDistance (st w') = 2
  /\ isNearDestination (st w') = true
  /\ lastNotificationTime (st w') = T0 + 9000
  /\ shown (env w')
     = mkNotification (T0 + 9000) 2 :: shown (env nearWorld).
Proof.
  pose proof (setThreshold_rearms planar 2 (st nearWorld)) as H.
  cbv zeta in *. destruct H as ((A1 & A2 & _) & B & _ & D).
  specialize (B (T0 + 9000) ltac:(evaluate)).
  specialize (D (T0 + 9000) nearWorld
                (mkTuple 0 18.5 73.86) (mkTuple 1 18.5 73.87) eq_refl
                nearWorld_reachable ltac:(evaluate)
                ltac:(cbn; tauto) ltac:(evaluate) ltac:(evaluate)
                ltac:(evaluate) ltac:(evaluate) ltac:(evaluate)
                ltac:(evaluate)).
  destruct D as (D1 & D2 & D3 & D4).
  split; [exact A1 |]. split; [exact A2 |].
  split; [rewrite B; evaluate |].
  split; [exact D1 |]. split; [exact D2 |]. split; [exact D3 | exact D4].
Defined.

Lemma timers_released_witness :
  (resetVisible (st nearWorld) = true ->
   intervals (env (step planar (T0 + 40000) EvReset nearWorld)) = []
   /\ watches (env (step planar (T0 + 40000) EvReset nearWorld))
      = watches (env nearWorld))
  /\ intervals (env (step planar (T0 + 40000) EvUnmount nearWorld)) = []
  /\ watches (env (step planar (T0 + 40000) EvUnmount nearWorld)) = [].
Proof.
  exact (timers_released planar (T0 + 40000) nearWorld nearWorld_reachable
           ltac:(evaluate) ltac:(evaluate)).
Defined.

(** C9, as stated, fails: after the reset the position subscription is
    still there. *)
Lemma reset_keeps_watch :
  ~ (intervals (env resetWorld) = [] /\ watches (env resetWorld) = []).
Proof. vm_compute. intros (_ & H). discriminate H. Qed.

Lemma snooze_extends_cooldown_witness :
  lastNotificationTime (st snoozedWorld) = T0 + 5000 + 300000
  /\ shown (env (step planar (T0 + 334999) (EvPosition 18.5 73.86) snoozedWorld))
     = shown (env snoozedWorld)
  /\ (lastNotificationTime
        (st (step planar (T0 + 335000) (EvPosition 18.5 73.86) snoozedWorld)),
      shown (env (step planar (T0 + 335000) (EvPosition 18.5 73.86) snoozedWorld)))
     = (T0 + 335000, mkNotification (T0 + 335000) 5 :: shown (env snoozedWorld)).
Proof.
  destruct (snooze_extends_cooldown planar (T0 + 5000) nearWorld
              nearWorld_reachable) as (A & _).
  destruct (A ltac:(evaluate) ltac:(evaluate) ltac:(evaluate)) as (_ & L & _).
  destruct (snooze_extends_cooldown planar (T0 + 5000) snoozedWorld
              snoozedWorld_reachable) as (_ & B).
  destruct (B L) as (B1 & B2).
  split; [exact L |]. split.
  - exact (proj1 (B1 (T0 + 334999) (EvPosition 18.5 73.86)
                    ltac:(evaluate) eq_refl ltac:(evaluate))).
  - exact (B2 (T0 + 335000) 18.5%Q 73.86%Q (mkTuple 1 18.5 73.87)
             ltac:(evaluate) ltac:(evaluate) ltac:(evaluate) ltac:(evaluate)
             ltac:(evaluate) ltac:(evaluate) ltac:(evaluate)).
Defined.

(** C1, at the failing input.  The interval callback tests the distance
    only: it notifies although less than the cooldown has passed since the
    time of the last notification. *)
Theorem tick_ignores_cooldown (distanceTo : LatLng -> LatLng -> Q)
    (now : Z) (h : nat) (i : Interval) (up dp : Tuple) (km : Z) (w : World) :
  mounted w = true ->
  findInterval h (env w) = Some i ->
  callback i = NotifyTick (Some up) (Some dp) km ->
  due i <= now ->
  Qle_bool (computeDistance distanceTo up dp) (inject_Z (km * 1000)) = true ->
  hasNotification (env w) = true -> permission (env w) = PermGranted ->
  now - lastNotificationTime (st w) < 30000 ->
  shown (env (step distanceTo now (EvTimer h) w))
  = mkNotification now km :: shown (env w).
Proof.
  intros M F C D Near HN PG _.
  destruct (timer_notifies distanceTo now h i up dp km w M F C D Near) as (_ & S).
  rewrite S. now apply shownAfter_granted.
Qed.

Lemma tick_ignores_cooldown_witness :
  (T0 + 32000 - lastNotificationTime (st snoozedWorld) <? 30000) = true
  /\ shown (env (step planar (T0 + 32000) (EvTimer 2) snoozedWorld))
     = mkNotification (T0 + 32000) 5 :: shown (env snoozedWorld).
Proof.
  split; [evaluate |].
  exact (tick_ignores_cooldown planar (T0 + 32000) 2%nat
           (mkInterval 2 30000 (T0 + 32000)
              (NotifyTick (Some (mkTuple 0 18.5 73.86))
                 (Some (mkTuple 1 18.5 73.87)) 5))
           (mkTuple 0 18.5 73.86) (mkTuple 1 18.5 73.87) 5 snoozedWorld
           ltac:(evaluate) ltac:(evaluate) ltac:(evaluate) ltac:(evaluate)
           ltac:(evaluate) ltac:(evaluate) ltac:(evaluate) ltac:(evaluate)).
Defined.

(** C2, at the failing input.  "I'm up" moves the time of the last
    notification 300000 ms ahead, and while that time is ahead the interval
    callback still notifies; doing so it overwrites the time, which ends
    the snooze. *)
Theorem tick_ignores_snooze (distanceTo : LatLng -> LatLng -> Q)
    (t now : Z) (h : nat) (i : Interval) (up dp : Tuple) (km : Z) (w : World) :
  mounted w = true -> imUpVisible (st w) = true ->
  let w1 := step distanceTo t EvImUp w in
  findInterval h (env w1) = Some i ->
  callback i = NotifyTick (Some up) (Some dp) km ->
  due i <= now ->
  Qle_bool (computeDistance distanceTo up dp) (inject_Z (km * 1000)) = true ->
  hasNotification (env w1) = true -> permission (env w1) = PermGranted ->
  snoozeActive now (st w1) = true ->
  let w2 := step distanceTo now (EvTimer h) w1 in
  lastNotificationTime (st w1) = t + 300000
  /\ shown (env w2) = mkNotification now km :: shown (env w1)
  /\ snoozeActive now (st w2) = false.
Proof.
  intros M V. cbn zeta. intros F C D Near HN PG Sn.
  assert (L1 : lastNotificationTime (st (step distanceTo t EvImUp w)) = t + 300000).
  { rewrite (step_imUp distanceTo t w M V).
    assert (Q1 : notifyDue distanceTo t (st (onState (imUp t) w)) = false).
    { apply notifyDue_not_elapsed. cbn. lia. }
    destruct (commit_notifies distanceTo t (onState (imUp t) w)) as (L & _).
    rewrite Q1, andb_false_r in L. exact L. }
  assert (M1 : mounted (step distanceTo t EvImUp w) = true).
  { rewrite (step_imUp distanceTo t w M V).
    destruct (commit_frame distanceTo t (onState (imUp t) w))
      as (_ & _ & _ & _ & _ & X & _). rewrite X. exact M. }
  generalize dependent (step distanceTo t EvImUp w). intros w1 F HN PG Sn L1 M1.
  destruct (timer_notifies distanceTo now h i up dp km w1 M1 F C D Near)
    as (L2 & S2).
  split; [exact L1 |]. split.
  - rewrite S2. now apply shownAfter_granted.
  - unfold snoozeActive. rewrite L2. lia.
Qed.

Lemma tick_ignores_snooze_witness :
  lastNotificationTime (st snoozedWorld) = T0 + 5000 + 300000
  /\ shown (env (step planar (T0 + 32000) (EvTimer 2) snoozedWorld))
     = mkNotification (T0 + 32000) 5 :: shown (env snoozedWorld)
  /\ snoozeActive (T0 + 32000)
       (st (step planar (T0 + 32000) (EvTimer 2) snoozedWorld)) = false.
Proof.
  exact (tick_ignores_snooze planar (T0 + 5000) (T0 + 32000) 2%nat
           (mkInterval 2 30000 (T0 + 32000)
              (NotifyTick (Some (mkTuple 0 18.5 73.86))
                 (Some (mkTuple 1 18.5 73.87)) 5))
           (mkTuple 0 18.5 73.86) (mkTuple 1 18.5 73.87) 5 nearWorld
           ltac:(evaluate) ltac:(evaluate) ltac:(evaluate) ltac:(evaluate)
           ltac:(evaluate) ltac:(evaluate) ltac:(evaluate) ltac:(evaluate)
           ltac:(evaluate)).
Defined.

(** ** The great-circle distance: symmetry, zero and size *)

Local Open Scope R_scope.

Lemma haversine_sym a b : haversine a b = haversine b a.
Proof.
  unfold haversine. cbv zeta.
  replace ((latitude a - latitude b) * degree / 2)
    with (- ((latitude b - latitude a) * degree / 2)) by lra.
  replace ((longitude a - longitude b) * degree / 2)
    with (- ((longitude b - longitude a) * degree / 2)) by lra.
  rewrite !sin_neg. ring.
Qed.

Lemma haversine_same p : haversine p p = 0.
Proof.
  unfold haversine. cbv zeta.
  replace ((latitude p - latitude p) * degree / 2) with 0 by lra.
  replace ((longitude p - longitude p) * degree / 2) with 0 by lra.
  rewrite sin_0. ring.
Qed.

Lemma asin_nonneg x : 0 <= x -> 0 <= asin x.
Proof.
  intros Hx. pose proof PI_RGT_0 as HPI. unfold asin.
  destruct (Rle_dec x (-1)); [lra |].
  destruct (Rle_dec 1 x); [lra |].
  assert (Hs : 0 < sqrt (1 - x²)).
  { apply sqrt_lt_R0. unfold Rsqr. nra. }
  destruct (Req_dec x 0) as [-> | Hn].
  - unfold Rdiv. rewrite Rmult_0_l, atan_0. lra.
  - rewrite <- atan_0. left. apply atan_increasing.
    apply Rdiv_lt_0_compat; lra.
Qed.

Lemma degree_pos : 0 < degree.
Proof. unfold degree. pose proof PI_RGT_0. lra. Qed.

(** C6.  The distance is a function of the two points alone, symmetric in
    them and zero from a point to itself; it lies between zero and half
    the circumference of a sphere of radius 6371000 m, and along a
    meridian it is that radius times the angle between the two
    latitudes. *)
Theorem haversineDistance_symmetric (a b : GeoPoint) :
  validGeoPoint a -> validGeoPoint b ->
  haversineDistance a b = haversineDistance b a
  /\ haversineDistance a a = 0
  /\ 0 <= haversineDistance a b <= PI * 6371000
  /\ (longitude a = longitude b ->
      haversineDistance a b
      = 6371000 * (Rabs (latitude b - latitude a) * degree)).
Proof.
  intros (Ha & _) (Hb & _). unfold haversineDistance, earthRadius.
  pose proof PI_RGT_0 as HPI. pose proof degree_pos as Hd.
  split; [now rewrite haversine_sym |].
  split; [rewrite haversine_same, sqrt_0, asin_0; ring |].
  split.
  - pose proof (asin_bound (sqrt (haversine a b))) as B.
    pose proof (asin_nonneg (sqrt (haversine a b)) (sqrt_pos _)) as N.
    nra.
  - intros E. unfold haversine. cbv zeta. rewrite E.
    replace ((longitude b - longitude b) * degree / 2) with 0 by lra.
    rewrite sin_0.
    set (x := (latitude b - latitude a) * degree / 2).
    replace (sin x * sin x + cos (latitude a * degree) * cos (latitude b * degree) * (0 * 0))
      with (Rsqr (sin x)) by (unfold Rsqr; ring).
    rewrite sqrt_Rsqr_abs.
    assert (Hx : Rabs x <= PI / 2).
    { unfold x, degree. apply Rabs_le. split; nra. }
    assert (Hs : Rabs (sin x) = sin (Rabs x)).
    { unfold Rabs at 2. destruct (Rcase_abs x) as [Hn | Hp].
      - rewrite sin_neg. apply Rabs_left.
        rewrite <- (Ropp_involutive x), sin_neg.
        assert (0 < sin (- x)); [| lra].
        apply sin_gt_0; [lra |].
        rewrite Rabs_left in Hx by exact Hn. lra.
      - apply Rabs_right. apply Rle_ge. apply sin_ge_0; [lra |].
        rewrite Rabs_right in Hx by exact Hp. lra. }
    rewrite Hs, asin_sin.
    + unfold x. unfold Rdiv. rewrite Rabs_mult, Rabs_mult.
      rewrite (Rabs_right degree) by lra.
      rewrite (Rabs_right (/ 2)) by lra. lra.
    + pose proof (Rabs_pos x). lra.
Qed.

Lemma haversineDistance_symmetric_witness :
  let a := mkGeoPoint 18.5 73.86 in
  let b := mkGeoPoint 18.51 73.86 in
  haversineDistance a b = haversineDistance b a
  /\ haversineDistance a a = 0
  /\ 0 <= haversineDistance a b <= PI * 6371000
  /\ (longitude a = longitude b ->
      haversineDistance a b
      = 6371000 * (Rabs (latitude b - latitude a) * degree)).
Proof.
  cbv zeta.
  apply (haversineDistance_symmetric (mkGeoPoint 18.5 73.86)
           (mkGeoPoint 18.51 73.86)); unfold validGeoPoint; cbn; lra.
Defined.

(** ** The first version of the component (lines 1-84)

    The file opens with an earlier [Map]: one fixed marker, the live
    position, and the distance between the two.  It has no destination,
    no threshold and no notification. *)

Module V1.

Local Open Scope Z_scope.

Definition positionA : Q * Q := (18.5, 73.86)%Q.

Record State : Type := mkState {
  userPosition : option (Q * Q);
  distanceMeters : option Q;
  geoError : option string
}.

Definition initialState : State := mkState None None None.

Inductive Event : Type :=
| EvPosition (latitude longitude : Q)
| EvPositionError (message : string).

Section Map.

Variable distanceTo : LatLng -> LatLng -> Q.

(** The effect on [[userPosition]]: nothing without a position, otherwise
    the distance from the fixed marker. *)
Definition distanceEffect (s : State) : State :=
  match userPosition s with
  | None => s
  | Some up =>
      let a := L_latLng (fst positionA) (snd positionA) in
      let b := L_latLng (fst up) (snd up) in
      mkState (userPosition s) (Some (distanceTo a b)) (geoError s)
  end.

(** The callbacks of [watchPosition].  A position arrives as a new array,
    so the effect runs after it; an error leaves [userPosition] as it is,
    so the effect does not run. *)
Definition step (ev : Event) (s : State) : State :=
  match ev with
  | EvPosition latitude longitude =>
      distanceEffect
        (mkState (Some (latitude, longitude)) (distanceMeters s) None)
  | EvPositionError message =>
      mkState (userPosition s) (distanceMeters s)
        (Some (if String.eqb message EmptyString
               then "Failed to retrieve position"%string else message))
  end.

Fixpoint run (evs : list Event) (s : State) : State :=
  match evs with
  | [] => s
  | ev :: rest => run rest (step ev s)
  end.

(** What the distance line shows: the distance, or "waiting for
    location...". *)
Definition showsDistance (s : State) : bool :=
  isSome (userPosition s) && isSome (distanceMeters s).

Definition upToDate (s : State) : Prop :=
  distanceMeters s
  = option_map
      (fun up => distanceTo (L_latLng (fst positionA) (snd positionA))
                   (L_latLng (fst up) (snd up)))
      (userPosition s).

Lemma step_upToDate ev s : upToDate s -> upToDate (step ev s).
Proof. unfold upToDate. destruct ev; cbn; auto. Qed.

Lemma step_keeps_position ev s :
  userPosition s <> None -> userPosition (step ev s) <> None.
Proof. destruct ev; cbn; auto. discriminate. Qed.

(** Along every run the distance shown is the distance from the fixed
    marker to the last position received; the component waits for a
    location exactly until the first position arrives, and an error of the
    position source never takes a distance away. *)
Theorem distance_follows_position (evs : list Event) :
  let s := run evs initialState in
  upToDate s
  /\ (showsDistance s = true <-> exists la lo, In (EvPosition la lo) evs)
  /\ forall message,
       distanceMeters (step (EvPositionError message) s) = distanceMeters s
       /\ userPosition (step (EvPositionError message) s) = userPosition s.
Proof.
  cbn zeta.
  assert (G : forall s,
              upToDate s ->
              upToDate (run evs s)
              /\ (userPosition (run evs s) <> None
                  <-> userPosition s <> None
                      \/ exists la lo, In (EvPosition la lo) evs)).
  { induction evs as [| ev evs IH]; intros s U.
    - cbn. split; [exact U |]. split; [auto |].
      intros [H | (la & lo & [])]. exact H.
    - cbn [run]. destruct (IH (step ev s) (step_upToDate ev s U)) as (A & B).
      split; [exact A |]. rewrite B. split.
      + intros [H | (la & lo & H)].
        * destruct ev as [la lo | m]; cbn in H.
          -- right. exists la, lo. now left.
          -- now left.
        * right. exists la, lo. now right.
      + intros [H | (la & lo & [H | H])].
        * left. now apply step_keeps_position.
        * left. subst ev. cbn. discriminate.
        * right. exists la, lo. exact H. }
  destruct (G initialState eq_refl) as (A & B).
  split; [exact A |]. split; [| intros m; split; reflexivity].
  unfold showsDistance. unfold upToDate in A. rewrite A.
  destruct (userPosition (run evs initialState)) as [up|]; cbn.
  - split; [intros _ | reflexivity].
    destruct B as (B & _). destruct (B ltac:(discriminate)) as [H | H];
      [cbn in H; congruence | exact H].
  - split; [discriminate |]. intros H. destruct B as (_ & B).
    exfalso. apply B; [now right | reflexivity].
Qed.

End Map.

End V1.

(** ** The further properties on concrete runs *)

Local Open Scope Z_scope.

(** [nearWorld] with notifications switched off at [T0 + 3000]. *)
Definition offWorld : World := step planar (T0 + 3000) EvToggle nearWorld.


Lemma resetWorld_reachable : Reachable planar resetWorld.
Proof.
  unfold resetWorld. apply Reachable_step; [| evaluate].
  apply nearWorld_reachable.
Qed.

Lemma offWorld_reachable : Reachable planar offWorld.
Proof.
  unfold offWorld. apply Reachable_step; [| evaluate].
  apply nearWorld_reachable.
Qed.

Lemma one_notification_per_event_witness :
  shown (env (step planar (T0 + 40000) (EvPosition 18.5 73.86) nearWorld))
  = shown (env nearWorld)
  \/ exists km,
       shown (env (step planar (T0 + 40000) (EvPosition 18.5 73.86) nearWorld))
       = mkNotification (T0 + 40000) km :: shown (env nearWorld).
Proof.
  exact (one_notification_per_event planar (T0 + 40000) (EvPosition 18.5 73.86)
           nearWorld nearWorld_reachable).
Defined.

Lemma far_user_never_notified_witness :
  shown (env (step planar (T0 + 100000) (EvPosition 19.5 73.86) nearWorld))
  = shown (env nearWorld).
Proof.
  exact (far_user_never_notified planar (T0 + 100000) (EvPosition 19.5 73.86)
           nearWorld nearWorld_reachable ltac:(evaluate) ltac:(evaluate)).
Defined.

Definition nearInterval : Interval :=
  mkInterval 2 30000 (T0 + 32000)
    (NotifyTick (Some (mkTuple 0 18.5 73.86)) (Some (mkTuple 1 18.5 73.87)) 5).

Lemma scheduled_intervals_current_witness :
  (callback nearInterval
   = NotifyTick (userPosition (st nearWorld)) (destinationPosition (st nearWorld))
       (selectedDistance (st nearWorld))
   /\ period nearInterval = 30000
   /\ notificationInterval (st nearWorld) = Some (handle nearInterval)
   /\ notificationsEnabled (st nearWorld) = true
   /\ destinationPosition (st nearWorld) <> None)
  \/ (callback nearInterval = CountdownTick (lastNotificationTime (st nearWorld))
      /\ period nearInterval = 1000).
Proof.
  apply (scheduled_intervals_current planar nearWorld nearWorld_reachable
           ltac:(evaluate) nearInterval).
  vm_compute. left. reflexivity.
Defined.

Lemma interval_scheduled_iff_witness :
  (exists i, In i (intervals (env offWorld)) /\ period i = 30000)
  <-> notificationsEnabled (st offWorld) = true
      /\ destinationPosition (st offWorld) <> None.
Proof.
  exact (interval_scheduled_iff planar offWorld offWorld_reachable ltac:(evaluate)).
Defined.

Lemma notifications_off_silent_witness :
  shown (env (step planar (T0 + 100000) (EvPosition 18.5 73.86) offWorld))
  = shown (env offWorld).
Proof.
  apply (notifications_off_silent planar (T0 + 100000) (EvPosition 18.5 73.86)
           offWorld offWorld_reachable); [evaluate | discriminate].
Defined.

Lemma no_destination_silent_witness :
  shown (env (step planar (T0 + 100000) (EvPosition 18.5 73.87) resetWorld))
  = shown (env resetWorld)
  /\ destinationPosition
       (st (step planar (T0 + 100000) (EvPosition 18.5 73.87) resetWorld)) = None
  /\ (mounted resetWorld = true ->
      lastNotificationTime (st resetWorld) = 0
      /\ forall t, 0 <= t -> snoozeActive t (st resetWorld) = false).
Proof.
  apply (no_destination_silent planar (T0 + 100000) (EvPosition 18.5 73.87)
           resetWorld resetWorld_reachable); [evaluate | discriminate].
Defined.


Lemma threshold_is_an_option_witness :
  In (selectedDistance (st nearWorld)) distanceOptions
  /\ 2 <= selectedDistance (st nearWorld) <= 20.
Proof.
  exact (threshold_is_an_option planar nearWorld nearWorld_reachable
           ltac:(evaluate)).
Defined.

Lemma countdown_tick_projection_witness :
  let w' := step planar (T0 + 6000) (EvTimer 3) snoozedWorld in
  let c := countdownSeconds (st w') in
  let remaining := lastNotificationTime (st snoozedWorld) - (T0 + 6000) in
  st w' = setCountdownSeconds c (st snoozedWorld)
  /\ 0 <= c
  /\ (c = 0 <-> remaining <= 0)
  /\ (0 < c -> 1000 * (c - 1) < remaining <= 1000 * c)
  /\ shown (env w') = shown (env snoozedWorld)
  /\ intervalCleanup w' = intervalCleanup snoozedWorld
  /\ countdownCleanup w' = countdownCleanup snoozedWorld.
Proof.
  exact (countdown_tick_projection planar (T0 + 6000) 3%nat
           (mkInterval 3 1000 (T0 + 6000) (CountdownTick (T0 + 305000)))
           snoozedWorld snoozedWorld_reachable ltac:(evaluate) ltac:(evaluate)
           ltac:(evaluate) ltac:(evaluate)).
Defined.

Lemma imUp_button_stays_witness :
  let w1 := step planar (T0 + 5000) EvImUp nearWorld in
  imUpVisible (st w1) = true
  /\ countdownSeconds (st w1) = 0
  /\ snoozeActive (T0 + 5000) (st w1) = true
  /\ forall t2, lastNotificationTime (st (step planar t2 EvImUp w1)) = t2 + 300000.
Proof.
  exact (imUp_button_stays planar (T0 + 5000) nearWorld
           ltac:(evaluate) ltac:(evaluate)).
Defined.

Lemma position_error_keeps_tracking_witness :
  let w' := step planar (T0 + 7000) (EvPositionError "Timeout expired") nearWorld in
  st w' = setGeoError (Some "Timeout expired"%string) (st nearWorld)
  /\ env w' = env nearWorld
  /\ intervalCleanup w' = intervalCleanup nearWorld
  /\ countdownCleanup w' = countdownCleanup nearWorld
  /\ watchCleanup w' = watchCleanup nearWorld
  /\ forall later la lo,
       geoError (st (step planar later (EvPosition la lo) w')) = None.
Proof.
  exact (position_error_keeps_tracking planar (T0 + 7000) "Timeout expired"
           nearWorld nearWorld_reachable ltac:(evaluate) ltac:(evaluate)).
Defined.

Lemma first_destination_notifies_witness :
  let w' := step planar (T0 + 50000) (EvMapClick 18.5 73.87) resetWorld in
  lastNotificationTime (st w') = T0 + 50000
  /\ shown (env w')
     = shownAfter (T0 + 50000) (selectedDistance (st resetWorld))
         (env resetWorld)
  /\ isNearDestination (st w') = true.
Proof.
  exact (first_destination_notifies planar (T0 + 50000) 18.5 73.87
           (mkTuple 0 18.5 73.86) resetWorld resetWorld_reachable
           ltac:(evaluate) ltac:(evaluate) ltac:(evaluate) ltac:(evaluate)
           ltac:(evaluate) ltac:(evaluate) ltac:(evaluate)).
Defined.

Lemma no_geolocation_no_tracking_witness :
  let w := run planar
             [(T0 + 1000, EvMapClick 18.5 73.87);
              (T0 + 2000, EvPosition 18.5 73.86)]
             (mount planar T0 (freshBrowser false true PermGranted)) in
  geoError (st w) = Some unsupportedMessage
  /\ userPosition (st w) = None
  /\ distanceMeters (st w) = None
  /\ isNearDestination (st w) = false
  /\ watches (env w) = []
  /\ shown (env w) = [].
Proof.
  apply (no_geolocation_no_tracking planar T0 true PermGranted
           [(T0 + 1000, EvMapClick 18.5 73.87);
            (T0 + 2000, EvPosition 18.5 73.86)]); [evaluate |].
  repeat constructor; evaluate.
Defined.

Definition restartedInterval : Interval :=
  mkInterval 3 30000 (T0 + 10000 + 30000)
    (NotifyTick (Some (mkTuple 2 18.5 73.865)) (Some (mkTuple 1 18.5 73.87)) 5).

Lemma position_update_restarts_interval_witness :
  due restartedInterval = T0 + 10000 + 30000.
Proof.
  apply (position_update_restarts_interval planar (T0 + 10000) 18.5 73.865
           nearWorld nearWorld_reachable ltac:(evaluate) ltac:(evaluate)
           ltac:(evaluate) restartedInterval); [| reflexivity].
  vm_compute. left. reflexivity.
Defined.

Lemma distance_follows_position_witness :
  let s := V1.run planar
             [V1.EvPositionError "denied"; V1.EvPosition 18.51 73.86]
             V1.initialState in
  V1.distanceMeters s = Some (planar (L_latLng 18.5 73.86) (L_latLng 18.51 73.86))
  /\ V1.showsDistance s = true.
Proof.
  pose proof (V1.distance_follows_position planar
                [V1.EvPositionError "denied"; V1.EvPosition 18.51 73.86])
    as (A & B & _).
  split; [exact A |]. apply B. exists 18.51%Q, 73.86%Q. right. left. reflexivity.
Defined.
